(** * kg_agent: a shallow embedding of [src/kg_agent/core.py]

    The module [kg_agent.core] has four classes and one free function:
    - [KnowledgeMemory]: a dict-backed store of intermediate results;
    - [KGExecutor]: a [networkx.DiGraph] with a triple loader and a bounded
      multi-hop neighbour query;
    - [KGToolbox]: a registry of named callables;
    - [KGAgent]: the plan / select / execute / remember loop;
    - [neighbor_tool]: the adapter from the executor to the toolbox.
    [examples/basic.py] adds a [DummyLLM] and registers [neighbor_tool]
    as the tool ["neighbors"].

    Python dicts and sets are modelled by stdpp's [gmap] and [gset], Python
    exceptions by an explicit result type, and the collaborators the agent
    calls (the language model, the tools, an overriding selector) by state
    transformers over a state [W] of their own. *)

From stdpp Require Import gmap strings list fin_maps fin_sets.
From Stdlib Require Import ZArith DecimalString.
From Stdlib Require DecimalNat DecimalFacts.

Open Scope string_scope.
Open Scope list_scope.
Open Scope Z_scope.

(** ** Python values and exceptions *)

(** The values that flow through memory and tools are typed [Any] in the
    source; this is the fragment the program can produce. [VNone] is
    Python's [None]. *)
#[warnings="-register-all"]
Inductive value : Type :=
  | VNone
  | VBool (b : bool)
  | VInt (z : Z)
  | VStr (s : string)
  | VList (l : list value).

(** The exceptions that appear in this program. [KeyError] is what
    [KGToolbox.call] raises, [NetworkXError] what [DiGraph.successors]
    raises, [TypeError] what calling with the wrong arity raises;
    [OtherError] stands for whatever a collaborator raises. *)
Inductive exn : Type :=
  | KeyError (msg : string)
  | NetworkXError (msg : string)
  | TypeError (msg : string)
  | OtherError (name msg : string).

(** A call either returns a value or raises. *)
Inductive pyresult (A : Type) : Type :=
  | Ok (a : A)
  | Raise (e : exn).
Arguments Ok {A} a.
Arguments Raise {A} e.

#[global] Instance pyresult_ret : MRet pyresult := λ A a, Ok a.
#[global] Instance pyresult_bind : MBind pyresult := λ A B f m,
  match m with
  | Ok a => f a
  | Raise e => Raise e
  end.
#[global] Instance pyresult_fmap : FMap pyresult := λ A B f m,
  match m with
  | Ok a => Ok (f a)
  | Raise e => Raise e
  end.

Definition returns {A : Type} (r : pyresult A) : bool :=
  match r with
  | Ok _ => true
  | Raise _ => false
  end.

(** ** [KnowledgeMemory] *)

Module KnowledgeMemory.

(** [store: Dict[str, Any] = field(default_factory=dict)] *)
Record t : Type := mk { store : gmap string value }.

(** [KnowledgeMemory()] *)
Definition fresh : t := mk ∅.

(** [return self.store.get(key)]: [dict.get] with no default gives
    [None] for a missing key. *)
Definition read (self : t) (key : string) : value :=
  match store self !! key with
  | Some v => v
  | None => VNone
  end.

(** [self.store[key] = value] *)
Definition write (self : t) (key : string) (v : value) : t :=
  mk (<[key := v]> (store self)).

(** A history of [write] calls, oldest first. *)
Definition writes (self : t) (ws : list (string * value)) : t :=
  foldl (λ m kv, write m kv.1 kv.2) self ws.

End KnowledgeMemory.

(** ** [networkx.DiGraph], as far as the executor uses it *)

Module nx.

(** Edge attribute dictionaries, [{"predicate": p}] here. *)
Abbreviation attrs := (gmap string string).

(** A [DiGraph] keeps three dicts with one key set: [_node], [_succ]
    (also called [_adj]) and [_pred], the mirror image of [_succ]. The
    executor adds edges and reads successors, so [_succ] is what is
    modelled: node |-> (successor |-> edge attributes). *)
Record DiGraph : Type := mk { succ : gmap string (gmap string attrs) }.

(** [nx.DiGraph()] *)
Definition empty : DiGraph := mk ∅.

(** [n in G] *)
Definition has_node (G : DiGraph) (n : string) : bool :=
  bool_decide (is_Some (succ G !! n)).

(** [G.has_edge(u, v)] *)
Definition has_edge (G : DiGraph) (u v : string) : bool :=
  match succ G !! u with
  | Some adj => bool_decide (is_Some (adj !! v))
  | None => false
  end.

(** [G.get_edge_data(u, v)] *)
Definition get_edge_data (G : DiGraph) (u v : string) : option attrs :=
  adj ← succ G !! u; adj !! v.

(** [if n not in self._succ: self._succ[n] = {}] *)
Definition ensure_node (n : string) (s : gmap string (gmap string attrs))
  : gmap string (gmap string attrs) :=
  match s !! n with
  | Some _ => s
  | None => <[n := ∅]> s
  end.

(** [G.add_edge(u, v, **attr)]: both endpoints become nodes, then
<<
    datadict = self._adj[u].get(v, {})
    datadict.update(attr)
    self._succ[u][v] = datadict
>>
    [dict.update] lets the new attributes win, as the left-biased union
    does. *)
Definition add_edge (G : DiGraph) (u v : string) (attr : attrs) : DiGraph :=
  let s := ensure_node v (ensure_node u (succ G)) in
  let adj_u := default ∅ (s !! u) in
  let datadict := attr ∪ default ∅ (adj_u !! v) in
  mk (<[u := <[v := datadict]> adj_u]> s).

(** [G.successors(n)]:
<<
    try:
        return iter(self._succ[n])
    except KeyError as err:
        raise NetworkXError(f"The node {n} is not in the digraph.") from err
>> *)
Definition successors (G : DiGraph) (n : string) : pyresult (gset string) :=
  match succ G !! n with
  | Some adj => Ok (dom adj)
  | None => Raise (NetworkXError ("The node " +:+ n +:+ " is not in the digraph."))
  end.

(** There is an edge from [u] to [v]. *)
Definition edge (G : DiGraph) (u v : string) : Prop :=
  ∃ adj, succ G !! u = Some adj ∧ is_Some (adj !! v).

(** [v] is [k] edges away from [u], for [k >= 1]. *)
Inductive hops (G : DiGraph) : nat → string → string → Prop :=
  | hops_one u v : edge G u v → hops G 1 u v
  | hops_more k u w v : edge G u w → hops G k w v → hops G (S k) u v.

(** Every successor is itself a node, which [add_edge] maintains. *)
Definition closed (G : DiGraph) : Prop :=
  ∀ u v, edge G u v → is_Some (succ G !! v).

(** [G.number_of_edges(u, v)]: 1 when the edge is there, else 0; a
    [DiGraph] has no parallel edges. *)
Definition number_of_edges_between (G : DiGraph) (u v : string) : nat :=
  if has_edge G u v then 1%nat else 0%nat.

(** [G.number_of_edges()]: the out-degrees summed. *)
Definition number_of_edges (G : DiGraph) : nat :=
  map_fold (λ _ adj n, (size adj + n)%nat) 0%nat (succ G).

End nx.

(** ** [KGExecutor] *)

Module KGExecutor.

Record t : Type := mk { graph : nx.DiGraph }.

(** [self.graph = graph or nx.DiGraph()] *)
Definition init (graph : option nx.DiGraph) : t :=
  mk (default nx.empty graph).

(** A triple [(s, p, o)]. *)
Abbreviation triple := (string * string * string)%type.

(** [for s, p, o in triples: self.graph.add_edge(s, o, predicate=p)] *)
Definition load_triples (self : t) (triples : list triple) : t :=
  mk (foldl (λ G '(s, p, o), nx.add_edge G s o {["predicate" := p]})
            (graph self) triples).

(** The inner loop of [query_neighbors]:
<<
    for n in frontier:
        next_frontier.update(self.graph.successors(n))
>>
    [ns] lists the frontier in iteration order. *)
Fixpoint update_successors (G : nx.DiGraph) (ns : list string)
    (next_frontier : gset string) : pyresult (gset string) :=
  match ns with
  | [] => Ok next_frontier
  | n :: ns' =>
      succs ← nx.successors G n;
      update_successors G ns' (next_frontier ∪ succs)
  end.

(** The outer loop, [for _ in range(depth)], with [k] rounds left:
<<
    next_frontier = set()
    ...
    neighbors.update(next_frontier)
    frontier = next_frontier
>> *)
Fixpoint layers (G : nx.DiGraph) (k : nat) (neighbors frontier : gset string)
    : pyresult (gset string) :=
  match k with
  | O => Ok neighbors
  | S k' =>
      next_frontier ← update_successors G (elements frontier) ∅;
      layers G k' (neighbors ∪ next_frontier) next_frontier
  end.

(** The set [neighbors] at the [return]; [range(depth)] is empty for
    [depth <= 0]. *)
Definition neighbor_set (self : t) (node : string) (depth : Z)
    : pyresult (gset string) :=
  layers (graph self) (Z.to_nat depth) ∅ {[node]}.

(** [return list(neighbors)]: the set listed in some order without
    repetition. *)
Definition query_neighbors (self : t) (node : string) (depth : Z)
    : pyresult (list string) :=
  elements <$> neighbor_set self node depth.

End KGExecutor.

(** [neighbor_tool(executor, node, depth=1)] *)
Definition neighbor_tool (executor : KGExecutor.t) (node : string) (depth : Z)
    : pyresult (list string) :=
  KGExecutor.query_neighbors executor node depth.

(** ** [KGToolbox] *)

Module KGToolbox.

(** A registered tool, called as [fn( *args, **kwargs)] in a state [W] of
    the tools' own (closures, counters, an executor they hold on to): it
    returns or raises, and may change that state. *)
Abbreviation callable W :=
  (list value → list (string * value) → W → pyresult value * W)%type.

Section Toolbox.
Variable W : Type.

(** [self.tools: Dict[str, Any] = {}] *)
Record t : Type := mk { tools : gmap string (callable W) }.

Definition init : t := mk ∅.

(** [self.tools[name] = fn] *)
Definition register (self : t) (name : string) (fn : callable W) : t :=
  mk (<[name := fn]> (tools self)).

(** [[
    if name not in self.tools:
        raise KeyError(f"Tool {name} not registered")
    return self.tools[name]( *args, **kwargs)
    ]] *)
Definition call (self : t) (name : string)
    (args : list value) (kwargs : list (string * value)) (w : W)
    : pyresult value * W :=
  match tools self !! name with
  | None => (Raise (KeyError ("Tool " +:+ name +:+ " not registered")), w)
  | Some fn => fn args kwargs w
  end.

End Toolbox.
Arguments mk {W} _.
Arguments tools {W} _.
Arguments init {W}.
Arguments register {W} _ _ _.
Arguments call {W} _ _ _ _ _.
End KGToolbox.

(** ** [KGAgent] *)

Module KGAgent.
Section Agent.
(** The state of the agent's collaborators: the language model and the
    registered tools. *)
Variable W : Type.

(** [self.llm], seen through [hasattr(self.llm, "generate")]: [None] when
    the object has no [generate], otherwise the method, which returns or
    raises. *)
Abbreviation llm_t := (option (string → W → pyresult value * W)).

(** [{"raw": raw_output, "steps": []}] *)
Record Plan : Type := mkPlan { raw : value; steps : list value }.

(** The agent object. [select_tool] is a method a subclass overrides; it
    sees the plan and, through [self], the memory and the collaborators. *)
Record t : Type := mk {
  llm : llm_t;
  toolbox : KGToolbox.t W;
  executor : KGExecutor.t;
  select_tool : Plan → KnowledgeMemory.t → W → option string * W
}.

(** What a run can be observed to do, in order: the calls that reached a
    registered tool, with their outcome, and the writes to memory. *)
Inductive event : Type :=
  | Invoked (name : string) (args : list value) (out : pyresult value)
  | Written (key : string) (v : value).

(** What a run changes: [self.memory], the collaborators, and the
    record of observations (which the source does not keep). *)
Record state : Type := mkState {
  memory : KnowledgeMemory.t;
  world : W;
  log : list event
}.

(** Methods run in a state and return or raise. *)
Definition M (A : Type) : Type := state → pyresult A * state.

#[global] Instance M_ret : MRet M := λ A a st, (Ok a, st).
#[global] Instance M_bind : MBind M := λ A B f m st,
  match m st with
  | (Ok a, st') => f a st'
  | (Raise e, st') => (Raise e, st')
  end.

(** A call into a collaborator. *)
Definition in_world {A : Type} (c : W → pyresult A * W) : M A := λ st,
  let '(r, w') := c (world st) in
  (r, mkState (memory st) w' (log st)).

Definition observe (e : event) : M unit := λ st,
  (Ok (), mkState (memory st) (world st) (log st ++ [e])).

(** The body of the shipped [select_tool]: [return None]. *)
Definition select_tool_stub : Plan → KnowledgeMemory.t → W → option string * W :=
  λ _ _ w, (None, w).

(** [KGAgent(llm, toolbox, executor)], with the shipped methods. *)
Definition init (llm : llm_t) (toolbox : KGToolbox.t W) (executor : KGExecutor.t) : t :=
  mk llm toolbox executor select_tool_stub.

(** [self.memory = memory or KnowledgeMemory()]: the state a new agent
    starts in. *)
Definition start (memory : option KnowledgeMemory.t) (w : W) : state :=
  mkState (default KnowledgeMemory.fresh memory) w [].

(** [[
    prompt = f"Plan steps for: {question}"
    raw_output = None
    if hasattr(self.llm, "generate"):
        raw_output = self.llm.generate(prompt)
    else:
        raw_output = "[]"
    return {"raw": raw_output, "steps": []}
    ]] *)
Definition plan (self : t) (question : string) : M Plan :=
  let prompt := "Plan steps for: " +:+ question in
  raw_output ← match llm self with
               | Some generate => in_world (generate prompt)
               | None => mret (VStr "[]")
               end;
  mret (mkPlan raw_output []).

(** [self.select_tool(plan)] *)
Definition call_select_tool (self : t) (plan : Plan) : M (option string) := λ st,
  let '(name, w') := select_tool self plan (memory st) (world st) in
  (Ok name, mkState (memory st) w' (log st)).

(** [return self.toolbox.call(tool_name, *args, **kwargs)] *)
Definition execute_tool (self : t) (tool_name : string)
    (args : list value) (kwargs : list (string * value)) : M value := λ st,
  let '(out, w') := KGToolbox.call (toolbox self) tool_name args kwargs (world st) in
  let seen := match KGToolbox.tools (toolbox self) !! tool_name with
              | Some _ => [Invoked tool_name args out]
              | None => []
              end in
  (out, mkState (memory st) w' (log st ++ seen)).

(** [self.memory.write(key, value)] *)
Definition update_memory (key : string) (v : value) : M unit := λ st,
  (Ok (), mkState (KnowledgeMemory.write (memory st) key v) (world st)
                  (log st ++ [Written key v])).

(** [f"step_{i}"] *)
Definition step_key (i : nat) : string :=
  "step_" +:+ NilZero.string_of_uint (Nat.to_uint i).

(** The loop of [run] over the remaining indices [indices] of
    [range(max_iterations)], with [result] as it stands:
    [[
    for i in range(max_iterations):
        tool_name = self.select_tool(plan)
        if tool_name is None:
            break
        tool_out = self.execute_tool(tool_name, question)
        self.update_memory(f"step_{i}", tool_out)
        result = tool_out
    return result
    ]] *)
Fixpoint iterate (self : t) (plan : Plan) (question : string)
    (indices : list nat) (result : value) : M value :=
  match indices with
  | [] => mret result
  | i :: rest =>
      tool_name ← call_select_tool self plan;
      match tool_name with
      | None => mret result
      | Some name =>
          tool_out ← execute_tool self name [VStr question] [];
          _ ← update_memory (step_key i) tool_out;
          iterate self plan question rest tool_out
      end
  end.

(** [[
    plan = self.plan(question)
    result = None
    for i in range(max_iterations): ...
    return result
    ]] *)
Definition run (self : t) (question : string) (max_iterations : Z) : M value :=
  plan ← plan self question;
  iterate self plan question (seq 0 (Z.to_nat max_iterations)) VNone.

(** The model call of [plan] returns normally in state [st] (vacuous when
    the llm has no [generate]). *)
Definition model_call_returns (self : t) (question : string) (st : state) : bool :=
  match llm self with
  | Some generate => returns (generate ("Plan steps for: " +:+ question) (world st)).1
  | None => true
  end.

(** The tool calls recorded in a log. *)
Definition invocations (l : list event) : list (string * list value * pyresult value) :=
  omap (λ e, match e with Invoked n a r => Some (n, a, r) | Written _ _ => None end) l.

(** The memory writes recorded in a log. *)
Definition memory_writes (l : list event) : list (string * value) :=
  omap (λ e, match e with Written k v => Some (k, v) | Invoked _ _ _ => None end) l.

End Agent.
Arguments mkState {W} _ _ _.
Arguments memory {W} _.
Arguments world {W} _.
Arguments log {W} _.
Arguments mk {W} _ _ _ _.
Arguments llm {W} _.
Arguments toolbox {W} _.
Arguments executor {W} _.
Arguments select_tool {W} _ _ _ _.
Arguments select_tool_stub {W} _ _ _.
Arguments init {W} _ _ _.
Arguments start {W} _ _.
Arguments plan {W} _ _ _.
Arguments execute_tool {W} _ _ _ _ _.
Arguments update_memory {W} _ _ _.
Arguments iterate {W} _ _ _ _ _ _.
Arguments run {W} _ _ _ _.
Arguments model_call_returns {W} _ _ _.
End KGAgent.

(** ** Fixtures *)

(** The two-edge graph of the specification's examples. *)
Definition chain_triples : list KGExecutor.triple :=
  [("A", "r1", "B"); ("B", "r2", "C")].

Definition chain_executor : KGExecutor.t :=
  KGExecutor.load_triples (KGExecutor.init None) chain_triples.

(** A tool that numbers its calls and echoes its arguments. *)
Definition counting_tool : KGToolbox.callable nat :=
  λ args kwargs n, (Ok (VList (VInt (Z.of_nat n) :: args)), S n).

Definition counting_toolbox : KGToolbox.t nat :=
  KGToolbox.register KGToolbox.init "count" counting_tool.

(** The agent as shipped, given an llm object without [generate]. *)
Definition shipped_agent : KGAgent.t nat :=
  KGAgent.init None counting_toolbox chain_executor.

(** A subclass whose [select_tool] always answers ["count"]. *)
Definition looping_agent : KGAgent.t nat :=
  KGAgent.mk None counting_toolbox chain_executor (λ _ _ w, (Some "count", w)).

(** A subclass whose [select_tool] names a tool nobody registered. *)
Definition stray_agent : KGAgent.t nat :=
  KGAgent.mk None counting_toolbox chain_executor (λ _ _ w, (Some "lookup", w)).

(** An llm whose [generate] raises. *)
Definition failing_generate : string → nat → pyresult value * nat :=
  λ prompt n, (Raise (OtherError "RuntimeError" prompt), n).

(** [G[u][v]["predicate"]], when the edge is there and has the attribute. *)
Definition edge_predicate (G : nx.DiGraph) (u v : string) : option string :=
  nx.get_edge_data G u v ≫= (.!! "predicate").

(** The events of the rounds of the loop that ran to their end: round
    [i] called the tool [name] on the question, got [out] back and wrote
    it under [step_i]. [outs] pairs each such round with its tool and
    output. *)
Fixpoint rounds (question : string) (indices : list nat)
    (outs : list (string * value)) : list KGAgent.event :=
  match indices, outs with
  | i :: indices', (name, out) :: outs' =>
      KGAgent.Invoked name [VStr question] (Ok out)
      :: KGAgent.Written (KGAgent.step_key i) out
      :: rounds question indices' outs'
  | _, _ => []
  end.

(** The rounds over [indices] run to their end, from memory [m] and
    collaborator state [w]: in each of them the selector, asked in the
    state the round starts in, names a tool, that name is registered, and
    the registered operation, applied to the question alone, returns.
    [outs] lists the tool and its output round by round; [m'] and [w'] are
    the memory and the collaborator state after the last round. *)
Inductive completes {W : Type} (self : KGAgent.t W) (p : KGAgent.Plan)
    (question : string)
  : list nat → KnowledgeMemory.t → W →
    list (string * value) → KnowledgeMemory.t → W → Prop :=
  | completes_nil m w : completes self p question [] m w [] m w
  | completes_cons i rest m w name w1 fn out w2 outs m' w' :
      KGAgent.select_tool self p m w = (Some name, w1) →
      KGToolbox.tools (KGAgent.toolbox self) !! name = Some fn →
      fn [VStr question] [] w1 = (Ok out, w2) →
      completes self p question rest
        (KnowledgeMemory.write m (KGAgent.step_key i) out) w2 outs m' w' →
      completes self p question (i :: rest) m w ((name, out) :: outs) m' w'.

(** A tool that returns on its first call and raises on every later one. *)
Definition flaky_tool : KGToolbox.callable nat :=
  λ args kwargs n,
    match n with
    | O => (Ok (VList args), 1%nat)
    | S _ => (Raise (OtherError "RuntimeError" "no more answers"), n)
    end.

(** A subclass whose [select_tool] always answers ["flaky"]. *)
Definition flaky_agent : KGAgent.t nat :=
  KGAgent.mk None (KGToolbox.register KGToolbox.init "flaky" flaky_tool)
    chain_executor (λ _ _ w, (Some "flaky", w)).

(** ** [examples/basic.py] *)

(** [DummyLLM.generate]: [return "[]"], whatever the prompt. *)
Definition DummyLLM_generate {W : Type} : string → W → pyresult value * W :=
  λ prompt w, (Ok (VStr "[]"), w).

(** A Python list of strings as a value. *)
Definition str_list (l : list string) : value := VList (VStr <$> l).

(** What the tool registered in the example,
    [lambda node, depth=1: neighbor_tool(executor, node, depth)], does
    when called as the loop calls a tool, [fn(question)]: one positional
    string, no keywords, so [depth] is 1. The executor it closes over is
    the state it runs in. *)
Definition acts_as_neighbors_lambda (fn : KGToolbox.callable KGExecutor.t) : Prop :=
  ∀ (node : string) (executor : KGExecutor.t),
    fn [VStr node] [] executor
    = (str_list <$> neighbor_tool executor node 1, executor).

(** A stand-in for that tool: on [fn(node)] with a string it does what
    the lambda does, and it refuses every other call. *)
Definition neighbors_double : KGToolbox.callable KGExecutor.t :=
  λ args kwargs executor,
    match args, kwargs with
    | [VStr node], [] => (str_list <$> neighbor_tool executor node 1, executor)
    | _, _ => (Raise (TypeError "call not supported by the stand-in"), executor)
    end.

(** A subclass whose [select_tool] always answers ["neighbors"], with the
    toolbox of the example. *)
Definition eager_agent : KGAgent.t KGExecutor.t :=
  KGAgent.mk (Some DummyLLM_generate)
    (KGToolbox.register KGToolbox.init "neighbors" neighbors_double)
    chain_executor (λ _ _ w, (Some "neighbors", w)).

(** * Properties *)

(** ** Memory *)

Section MemoryFacts.
Import KnowledgeMemory.

Lemma store_writes_other (ws : list (string * value)) (m : t) (key : string) :
  key ∉ ws.*1 → store (writes m ws) !! key = store m !! key.
Proof.
  revert m. induction ws as [|[k v] ws IH]; intros m Hnot; [done|].
  rewrite fmap_cons, not_elem_of_cons in Hnot. destruct Hnot as [Hne Hrest].
  unfold writes in *. cbn [foldl]. rewrite IH by done.
  cbn. by rewrite lookup_insert_ne.
Qed.

Lemma read_absent (m : t) (key : string) :
  store m !! key = None → read m key = VNone.
Proof. unfold read. by intros ->. Qed.

(** C6. [write(key, value)] followed by [read(key)] gives back exactly
    [value]; [read] of a key that is not in the store, in particular of a
    key that no [write] since the creation of the memory has used, gives
    [None] (a value, not an exception). *)
Theorem write_read_roundtrip (m : t) (key : string) (v : value) :
  read (write m key v) key = v
  ∧ (∀ key', store m !! key' = None → read m key' = VNone)
  ∧ (∀ ws key', key' ∉ ws.*1 → read (writes fresh ws) key' = VNone).
Proof.
  split; [|split].
  - unfold read, write. cbn. by rewrite lookup_insert_eq.
  - intros key'. apply read_absent.
  - intros ws key' Hnot. apply read_absent.
    by rewrite store_writes_other.
Qed.

Lemma write_read_roundtrip_witness :
  read (write fresh "a" (VInt 1)) "a" = VInt 1
  ∧ read fresh "b" = VNone
  ∧ read (writes fresh [("a", VInt 1)]) "b" = VNone.
Proof.
  destruct (write_read_roundtrip fresh "a" (VInt 1)) as (Hrt & Habs & Hnever).
  split; [exact Hrt|]. split.
  - apply Habs. reflexivity.
  - apply Hnever. intros Hin. apply list_elem_of_In in Hin.
    destruct Hin as [Heq|[]]. discriminate Heq.
Defined.

(** C10. The marker for a missing key is [None] itself: after
    [write(key, None)] the store does hold [key], yet [read(key)] gives
    what [read] gives for any key that is not in a store. *)
Theorem stored_None_reads_as_absent (m m' : t) (key key' : string) :
  store m' !! key' = None →
  read (write m key VNone) key = read m' key'
  ∧ read m' key' = VNone
  ∧ store (write m key VNone) !! key = Some VNone.
Proof.
  intros Habs.
  assert (Hst : store (write m key VNone) !! key = Some VNone)
    by (cbn; apply lookup_insert_eq).
  rewrite (read_absent _ _ Habs). unfold read. by rewrite Hst.
Qed.

Lemma stored_None_reads_as_absent_witness :
  read (write fresh "k" VNone) "k" = read fresh "k"
  ∧ read fresh "k" = VNone
  ∧ store (write fresh "k" VNone) !! "k" = Some VNone.
Proof. apply (stored_None_reads_as_absent fresh fresh "k" "k"). reflexivity. Defined.

End MemoryFacts.

(** ** Graph store *)

Section GraphFacts.
Import KGExecutor.

Lemma ensure_node_lookup (n k : string) (s : gmap string (gmap string nx.attrs)) :
  nx.ensure_node n s !! k =
    match s !! k with
    | Some adj => Some adj
    | None => if decide (n = k) then Some ∅ else None
    end.
Proof.
  unfold nx.ensure_node. destruct (s !! n) eqn:Hn.
  - destruct (s !! k) eqn:Hk; [done|]. case_decide; [congruence|done].
  - rewrite lookup_insert. case_decide; subst.
    + by rewrite Hn.
    + by destruct (s !! k).
Qed.

Lemma ensure_node_present (n : string) (s : gmap string (gmap string nx.attrs)) :
  is_Some (s !! n) → nx.ensure_node n s = s.
Proof. unfold nx.ensure_node. by intros [adj ->]. Qed.

(** Adding an edge between two nodes that are there rewrites one entry
    of one adjacency dict. *)
Lemma add_edge_present (G : nx.DiGraph) (u v : string) (attr : nx.attrs)
    (adj : gmap string nx.attrs) :
  nx.succ G !! u = Some adj → is_Some (nx.succ G !! v) →
  nx.succ (nx.add_edge G u v attr)
  = <[u := <[v := attr ∪ default ∅ (adj !! v)]> adj]> (nx.succ G).
Proof.
  intros Hu Hv. unfold nx.add_edge. cbn.
  rewrite (ensure_node_present u) by eauto.
  rewrite (ensure_node_present v) by done.
  by rewrite Hu.
Qed.

(** After [add_edge(u, v)] both endpoints are nodes and [v] is a
    successor of [u], carrying the attributes just given. *)
Lemma add_edge_result (G : nx.DiGraph) (u v : string) (attr : nx.attrs) :
  ∃ adj d,
    nx.succ (nx.add_edge G u v attr) !! u = Some (<[v := attr ∪ d]> adj)
    ∧ is_Some (nx.succ (nx.add_edge G u v attr) !! v).
Proof.
  unfold nx.add_edge. cbn.
  set (s := nx.ensure_node v (nx.ensure_node u (nx.succ G))).
  exists (default ∅ (s !! u)), (default ∅ (default ∅ (s !! u) !! v)).
  split; [by rewrite lookup_insert_eq|].
  rewrite lookup_insert. case_decide; [eauto|].
  unfold s. rewrite ensure_node_lookup.
  destruct (nx.ensure_node u (nx.succ G) !! v); [eauto|].
  rewrite decide_True by done. eauto.
Qed.

(** Replacing an adjacency dict by one of the same size keeps the
    number of edges. *)
Lemma out_degree_sum_insert (s : gmap string (gmap string nx.attrs))
    (u : string) (adj adj' : gmap string nx.attrs) :
  s !! u = Some adj → size adj' = size adj →
  map_fold (λ _ a n, (size a + n)%nat) 0%nat (<[u := adj']> s)
  = map_fold (λ _ a n, (size a + n)%nat) 0%nat s.
Proof.
  intros Hu Hsize.
  rewrite <- (insert_delete_eq s u adj').
  rewrite <- (insert_delete_id s u adj) at 2 by done.
  rewrite !map_fold_insert_L; try (by rewrite lookup_delete_eq); intros; lia.
Qed.

(** One missing node in the frontier makes the expansion raise. *)
Lemma update_successors_missing (G : nx.DiGraph) (n : string) (acc : gset string) :
  nx.succ G !! n = None →
  update_successors G [n] acc
  = Raise (NetworkXError ("The node " +:+ n +:+ " is not in the digraph.")).
Proof. intros Hn. cbn. unfold nx.successors. by rewrite Hn. Qed.

(** C7. [query_neighbors(n, 0)] is empty for every node, in the graph or
    not, and every graph: the loop body never runs. *)
Theorem query_neighbors_depth_0 (ex : t) (n : string) :
  neighbor_set ex n 0 = Ok ∅ ∧ query_neighbors ex n 0 = Ok [].
Proof.
  unfold query_neighbors, neighbor_set. change (Z.to_nat 0) with 0%nat.
  cbn [layers]. split; [done|].
  unfold fmap, pyresult_fmap. by rewrite elements_empty.
Qed.

(** C1, as the code has it. For a node that is not in the graph,
    [query_neighbors] returns the empty list when [depth <= 0] and raises
    networkx's [NetworkXError] when [depth >= 1]: [DiGraph.successors]
    does not treat a missing node as one without successors. *)
Theorem query_neighbors_missing_node (ex : t) (n : string) (depth : Z) :
  nx.has_node (graph ex) n = false →
  query_neighbors ex n depth
  = if decide (depth ≤ 0) then Ok []
    else Raise (NetworkXError ("The node " +:+ n +:+ " is not in the digraph.")).
Proof.
  intros Hmiss. unfold nx.has_node in Hmiss.
  apply bool_decide_eq_false in Hmiss.
  assert (Hn : nx.succ (graph ex) !! n = None)
    by (destruct (nx.succ (graph ex) !! n); [exfalso; eauto | done]).
  unfold query_neighbors, neighbor_set. case_decide as Hd.
  - replace (Z.to_nat depth) with 0%nat by lia. cbn [layers].
    unfold fmap, pyresult_fmap. by rewrite elements_empty.
  - destruct (Z.to_nat depth) as [|k] eqn:Hk; [lia|].
    cbn [layers]. rewrite elements_singleton.
    by rewrite update_successors_missing.
Qed.

Lemma query_neighbors_missing_node_witness :
  query_neighbors chain_executor "Z" 0 = Ok []
  ∧ query_neighbors chain_executor "Z" 2
    = Raise (NetworkXError "The node Z is not in the digraph.").
Proof.
  split.
  - apply (query_neighbors_missing_node chain_executor "Z" 0). reflexivity.
  - apply (query_neighbors_missing_node chain_executor "Z" 2). reflexivity.
Defined.

(** C1, as the specification states it, fails: ["Z"] is not a node of the
    two-edge graph, the depth is 1, and the query raises instead of
    returning an empty result. *)
Lemma query_neighbors_missing_node_raises :
  nx.has_node (graph chain_executor) "Z" = false
  ∧ 0 ≤ 1
  ∧ query_neighbors chain_executor "Z" 1
    = Raise (NetworkXError "The node Z is not in the digraph.")
  ∧ query_neighbors chain_executor "Z" 1 ≠ Ok [].
Proof.
  assert (Hq : query_neighbors chain_executor "Z" 1
               = Raise (NetworkXError "The node Z is not in the digraph."))
    by (vm_compute; reflexivity).
  split; [by vm_compute|]. split; [lia|]. split; [exact Hq|].
  rewrite Hq. discriminate.
Qed.

(** C2. After loading [("A","r1","B"), ("B","r2","C")] into an empty graph,
    depth 1 from ["A"] gives exactly {B} and depth 2 gives exactly {B, C}:
    the layers united, not the last layer alone (which would be {C}). The
    list returned holds those nodes once each, in some order. *)
Theorem chain_neighbors :
  neighbor_set chain_executor "A" 1 = Ok {["B"]}
  ∧ neighbor_set chain_executor "A" 2 = Ok {["B"; "C"]}
  ∧ (∃ l, query_neighbors chain_executor "A" 1 = Ok l ∧ l ≡ₚ ["B"])
  ∧ (∃ l, query_neighbors chain_executor "A" 2 = Ok l ∧ l ≡ₚ ["B"; "C"]).
Proof.
  split; [by vm_compute|]. split; [by vm_compute|]. split.
  - exists ["B"]. split; [by vm_compute|done].
  - exists ["C"; "B"]. split; [by vm_compute|]. apply Permutation_swap.
Qed.

(** *** The query returns on graphs built by [load_triples] *)

Lemma ensure_node_mono (n k : string) (s : gmap string (gmap string nx.attrs))
    (adj : gmap string nx.attrs) :
  s !! k = Some adj → nx.ensure_node n s !! k = Some adj.
Proof. intros Hk. by rewrite ensure_node_lookup, Hk. Qed.

Lemma ensure_node_inv (n k : string) (s : gmap string (gmap string nx.attrs))
    (adj : gmap string nx.attrs) :
  nx.ensure_node n s !! k = Some adj → s !! k = Some adj ∨ adj = ∅.
Proof.
  rewrite ensure_node_lookup. destruct (s !! k); [by left|].
  case_decide; [|done]. intros [= <-]. by right.
Qed.

(** [add_edge] keeps the nodes that are there. *)
Lemma add_edge_nodes (G : nx.DiGraph) (u v k : string) (attr : nx.attrs) :
  is_Some (nx.succ G !! k) → is_Some (nx.succ (nx.add_edge G u v attr) !! k).
Proof.
  intros [adj Hk]. unfold nx.add_edge. cbn.
  rewrite lookup_insert. case_decide; [eauto|].
  rewrite (ensure_node_mono v k _ adj); [eauto|].
  by apply ensure_node_mono.
Qed.

(** An edge after [add_edge(u, v)] is the new one or an old one. *)
Lemma add_edge_edges (G : nx.DiGraph) (u v a b : string) (attr : nx.attrs) :
  nx.edge (nx.add_edge G u v attr) a b → (a = u ∧ b = v) ∨ nx.edge G a b.
Proof.
  intros (adj & Ha & Hb). revert Ha. unfold nx.add_edge. cbn.
  set (s := nx.ensure_node v (nx.ensure_node u (nx.succ G))).
  assert (Hold : ∀ adj', s !! a = Some adj' → is_Some (adj' !! b) → nx.edge G a b).
  { intros adj' Hs Hb'. unfold s in Hs.
    apply ensure_node_inv in Hs as [Hs| ->]; [|by destruct Hb'].
    apply ensure_node_inv in Hs as [Hs| ->]; [|by destruct Hb'].
    by exists adj'. }
  rewrite lookup_insert. case_decide as Hua; [subst a|].
  - intros [= <-]. rewrite lookup_insert in Hb. case_decide; [by left|].
    right. destruct (s !! u) as [adj'|] eqn:Hs; [by apply (Hold adj')|].
    cbn in Hb. by destruct Hb.
  - intros Ha. right. by apply (Hold adj).
Qed.

Lemma add_edge_closed (G : nx.DiGraph) (u v : string) (attr : nx.attrs) :
  nx.closed G → nx.closed (nx.add_edge G u v attr).
Proof.
  intros Hclosed a b Hedge.
  apply add_edge_edges in Hedge as [[-> ->]|Hedge].
  - by destruct (add_edge_result G u v attr) as (? & ? & _ & ?).
  - by eapply add_edge_nodes, Hclosed.
Qed.

Lemma empty_closed : nx.closed nx.empty.
Proof.
  intros u v (adj & Hu & _). unfold nx.empty in Hu. cbn [nx.succ] in Hu.
  by rewrite lookup_empty in Hu.
Qed.

Lemma load_triples_closed (ex : t) (triples : list triple) :
  nx.closed (graph ex) → nx.closed (graph (load_triples ex triples)).
Proof.
  unfold load_triples. cbn [graph]. generalize (graph ex) as G.
  induction triples as [|[[s p] o] triples IH]; intros G HG; [done|].
  cbn [foldl]. by apply IH, add_edge_closed.
Qed.

(** What the inner loop computes, when every node of the frontier is in
    the graph: the accumulator and all successors of the frontier. *)
Lemma update_successors_spec (G : nx.DiGraph) (ns : list string) (acc : gset string) :
  (∀ n, n ∈ ns → is_Some (nx.succ G !! n)) →
  ∃ S, update_successors G ns acc = Ok S
       ∧ ∀ x, x ∈ S ↔ x ∈ acc ∨ ∃ n, n ∈ ns ∧ nx.edge G n x.
Proof.
  revert acc. induction ns as [|n ns IH]; intros acc Hns.
  - exists acc. split; [done|]. intros x. split; [by left|].
    intros [?|(n & Hn & _)]; [done|]. by apply elem_of_nil in Hn.
  - destruct (Hns n) as [adj Hn]; [by left|].
    destruct (IH (acc ∪ dom adj)) as (S & HS & Hspec).
    { intros m Hm. apply Hns. by right. }
    exists S. split.
    { cbn. unfold nx.successors. by rewrite Hn. }
    intros x. rewrite Hspec, elem_of_union, elem_of_dom. split.
    + intros [[Hacc|Hadj]|(m & Hm & Hedge)].
      * by left.
      * right. exists n. split; [by left|]. by exists adj.
      * right. exists m. split; [by right|done].
    + intros [Hacc|(m & Hm & Hedge)]; [by left; left|].
      apply elem_of_cons in Hm as [->|Hm].
      * left; right. destruct Hedge as (adj' & Hadj' & Hx). congruence.
      * right. by exists m.
Qed.

(** What the outer loop computes on a closed graph: what was collected
    before, and every node between 1 and [k] edges away from a node of the
    frontier. *)
Lemma layers_spec (G : nx.DiGraph) (k : nat) (neighbors frontier : gset string) :
  nx.closed G →
  (∀ n, n ∈ frontier → is_Some (nx.succ G !! n)) →
  ∃ S, layers G k neighbors frontier = Ok S
       ∧ ∀ x, x ∈ S ↔ x ∈ neighbors
                      ∨ ∃ j n, (1 ≤ j ≤ k)%nat ∧ n ∈ frontier ∧ nx.hops G j n x.
Proof.
  intros Hclosed. revert neighbors frontier.
  induction k as [|k IH]; intros neighbors frontier Hfr.
  - exists neighbors. split; [done|]. intros x. split; [by left|].
    intros [?|(j & n & Hj & _)]; [done|lia].
  - destruct (update_successors_spec G (elements frontier) ∅) as (next & Hnext & Hspec).
    { intros n Hn. apply Hfr. by apply elem_of_elements. }
    assert (Hin : ∀ x, x ∈ next ↔ ∃ n, n ∈ frontier ∧ nx.edge G n x).
    { intros x. rewrite Hspec. split.
      - intros [Hx|(n & Hn & He)]; [by apply not_elem_of_empty in Hx|].
        exists n. by rewrite <- elem_of_elements.
      - intros (n & Hn & He). right. exists n. by rewrite elem_of_elements. }
    destruct (IH (neighbors ∪ next) next) as (S & HS & HSspec).
    { intros n Hn. apply Hin in Hn as (m & _ & He). by eapply Hclosed. }
    exists S. split; [cbn [layers]; by rewrite Hnext|].
    intros x. rewrite HSspec, elem_of_union. split.
    + intros [[Hx|Hx]|(j & n & Hj & Hn & Hh)].
      * by left.
      * right. apply Hin in Hx as (n & Hn & He).
        exists 1%nat, n. split; [lia|]. split; [done|]. by constructor.
      * right. apply Hin in Hn as (m & Hm & He).
        exists (Datatypes.S j), m. split; [lia|]. split; [done|].
        by econstructor.
    + intros [Hx|(j & n & Hj & Hn & Hh)]; [by left; left|].
      inversion Hh as [u v He|j' u w v He Hh']; subst.
      * left; right. apply Hin. by exists n.
      * right. exists j', w. split; [|split; [apply Hin; by exists n|done]].
        split; [|lia]. inversion Hh'; lia.
Qed.

(** On a closed graph, so on every graph that [load_triples] builds from
    the empty one, a query from a node of the graph returns, and returns
    the nodes between 1 and [depth] edges away, each once. *)
Lemma query_neighbors_present (ex : t) (n : string) (depth : Z) :
  nx.closed (graph ex) → nx.has_node (graph ex) n = true →
  ∃ l, query_neighbors ex n depth = Ok l
       ∧ NoDup l
       ∧ ∀ x, x ∈ l ↔ ∃ j, (1 ≤ j ≤ Z.to_nat depth)%nat ∧ nx.hops (graph ex) j n x.
Proof.
  intros Hclosed Hnode. apply bool_decide_eq_true in Hnode.
  destruct (layers_spec (graph ex) (Z.to_nat depth) ∅ {[n]} Hclosed)
    as (S & HS & Hspec).
  { intros m Hm. apply elem_of_singleton in Hm. by subst m. }
  exists (elements S). split.
  { unfold query_neighbors, neighbor_set. by rewrite HS. }
  split; [apply NoDup_elements|].
  intros x. rewrite elem_of_elements, Hspec. split.
  - intros [Hx|(j & m & Hj & Hm & Hh)]; [by apply not_elem_of_empty in Hx|].
    apply elem_of_singleton in Hm. subst m. by exists j.
  - intros (j & Hj & Hh). right. exists j, n.
    split; [done|]. split; [by apply elem_of_singleton|done].
Qed.

(** Two calls of [add_edge] on the same pair: the second one finds both
    nodes and the edge, and replaces the attribute dict of that edge. *)
Lemma add_edge_twice (G : nx.DiGraph) (u v : string) (a a' : nx.attrs) :
  ∃ adj d,
    nx.succ (nx.add_edge G u v a) !! u = Some (<[v := a ∪ d]> adj)
    ∧ nx.succ (nx.add_edge (nx.add_edge G u v a) u v a')
      = <[u := <[v := a' ∪ (a ∪ d)]> adj]> (nx.succ (nx.add_edge G u v a)).
Proof.
  destruct (add_edge_result G u v a) as (adj & d & Hu & Hv).
  exists adj, d. split; [done|].
  rewrite (add_edge_present _ u v a' _ Hu Hv).
  by rewrite lookup_insert_eq, insert_insert_eq.
Qed.

(** C8. Loading [(s, p', o)] after [(s, p, o)] replaces the predicate
    stored on the edge and adds no edge: the successors of [s], the
    successor sets of all nodes and the number of edges stay as they were,
    and there is one edge from [s] to [o]. Loaded into an empty graph,
    the two triples leave [s] with the single successor [o]. *)
Theorem reload_overwrites_predicate (ex : t) (s p o p' : string) :
  let ex1 := load_triples ex [(s, p, o)] in
  let ex2 := load_triples ex1 [(s, p', o)] in
  load_triples ex [(s, p, o); (s, p', o)] = ex2
  ∧ nx.get_edge_data (graph ex1) s o ≫= (.!! "predicate") = Some p
  ∧ nx.get_edge_data (graph ex2) s o ≫= (.!! "predicate") = Some p'
  ∧ nx.successors (graph ex2) s = nx.successors (graph ex1) s
  ∧ dom <$> nx.succ (graph ex2) = dom <$> nx.succ (graph ex1)
  ∧ nx.number_of_edges (graph ex2) = nx.number_of_edges (graph ex1)
  ∧ nx.number_of_edges_between (graph ex2) s o = 1%nat
  ∧ nx.successors
      (graph (load_triples (init None) [(s, p, o); (s, p', o)])) s = Ok {[o]}.
Proof.
  intros ex1 ex2. unfold ex2, ex1, load_triples. cbn [foldl graph].
  destruct (add_edge_twice (graph ex) s o {["predicate" := p]} {["predicate" := p']})
    as (adj & d & Hs1 & Hs2).
  set (G1 := nx.add_edge (graph ex) s o {["predicate" := p]}) in *.
  set (G2 := nx.add_edge G1 s o {["predicate" := p']}) in *.
  assert (Hdom : dom (<[o := {["predicate" := p']} ∪ ({["predicate" := p]} ∪ d)]> adj)
                 = dom (<[o := {["predicate" := p]} ∪ d]> adj))
    by (rewrite !dom_insert_L; done).
  split; [done|]. split; [|split; [|split; [|split; [|split; [|split]]]]].
  - unfold nx.get_edge_data. rewrite Hs1. cbn. rewrite lookup_insert_eq. cbn.
    apply lookup_union_Some_l, lookup_singleton_eq.
  - unfold nx.get_edge_data. rewrite Hs2, lookup_insert_eq. cbn.
    rewrite lookup_insert_eq. cbn.
    apply lookup_union_Some_l, lookup_singleton_eq.
  - unfold nx.successors. rewrite Hs2, lookup_insert_eq, Hs1. by rewrite Hdom.
  - rewrite Hs2, fmap_insert, Hdom. apply insert_id.
    by rewrite lookup_fmap, Hs1.
  - unfold nx.number_of_edges. rewrite Hs2.
    apply (out_degree_sum_insert _ _ _ _ Hs1).
    rewrite <- !size_dom. by rewrite Hdom.
  - unfold nx.number_of_edges_between, nx.has_edge.
    rewrite Hs2, lookup_insert_eq, lookup_insert_eq.
    rewrite bool_decide_eq_true_2; [done|eauto].
  - clear. unfold init. cbn [default graph].
    destruct (add_edge_twice nx.empty s o {["predicate" := p]} {["predicate" := p']})
      as (adj & d & Hs1 & Hs2).
    unfold nx.successors. rewrite Hs2, lookup_insert_eq. f_equal.
    revert Hs1. unfold nx.add_edge. cbn. rewrite lookup_insert_eq.
    intros [= Hadj]. rewrite dom_insert_L.
    assert (Hd : dom (<[o := {["predicate" := p]} ∪ d]> adj) = {[o]}).
    { rewrite <- Hadj, dom_insert_L.
      unfold nx.ensure_node. rewrite lookup_empty.
      destruct (decide (s = o)) as [->|Hne].
      - rewrite lookup_insert_eq, lookup_insert_eq. cbn.
        by rewrite dom_empty_L, (right_id_L ∅ (∪)).
      - rewrite lookup_insert_ne, lookup_empty by done.
        rewrite lookup_insert_ne, lookup_insert_eq by done. cbn.
        by rewrite dom_empty_L, (right_id_L ∅ (∪)). }
    rewrite dom_insert_L in Hd. done.
Qed.

End GraphFacts.

(** ** Toolbox *)

Section ToolboxFacts.
Import KGToolbox.
Context {W : Type}.

(** C4. Calling a name that is not registered raises the toolbox's
    lookup error ([KeyError], "Tool <name> not registered") and touches
    nothing; calling a registered name is the registered operation applied
    to the same positional and keyword arguments, result, exception and
    effect alike. In particular after [register(x, fn)], calling [x] is
    calling [fn], and an unregistered [y] still raises. *)
Theorem call_dispatch (self : t W) (args : list value)
    (kwargs : list (string * value)) (w : W) :
  (∀ name, tools self !! name = None →
     call self name args kwargs w
     = (Raise (KeyError ("Tool " +:+ name +:+ " not registered")), w))
  ∧ (∀ name fn, tools self !! name = Some fn →
     call self name args kwargs w = fn args kwargs w)
  ∧ (∀ x fn, call (register self x fn) x args kwargs w = fn args kwargs w)
  ∧ (∀ x y fn, y ≠ x → tools self !! y = None →
     call (register self x fn) y args kwargs w
     = (Raise (KeyError ("Tool " +:+ y +:+ " not registered")), w)).
Proof.
  unfold call, register. split; [|split; [|split]].
  - by intros name ->.
  - by intros name fn ->.
  - intros x fn. cbn. by rewrite lookup_insert_eq.
  - intros x y fn Hne Hy. cbn. by rewrite lookup_insert_ne, Hy.
Qed.

End ToolboxFacts.

Lemma call_dispatch_witness :
  KGToolbox.call counting_toolbox "y" [VStr "q"] [] 0%nat
  = (Raise (KeyError "Tool y not registered"), 0%nat)
  ∧ KGToolbox.call counting_toolbox "count" [VStr "q"] [] 0%nat
    = (Ok (VList [VInt 0; VStr "q"]), 1%nat).
Proof.
  destruct (call_dispatch counting_toolbox [VStr "q"] [] 0%nat)
    as (Hmissing & Hregistered & _ & _).
  split.
  - apply (Hmissing "y"). reflexivity.
  - rewrite (Hregistered "count" counting_tool); reflexivity.
Defined.

(** ** Agent loop *)

Section AgentFacts.
Import KGAgent.
Context {W : Type}.
Implicit Types (self : t W) (st : state W) (p : Plan).

(** Planning reads and writes neither memory nor the log; it returns a
    plan without steps, or raises what [generate] raised. *)
Lemma plan_cases self (question : string) st :
  match llm self with
  | None => plan self question st = (Ok (mkPlan (VStr "[]") []), st)
  | Some generate =>
      let '(r, w') := generate ("Plan steps for: " +:+ question) (world st) in
      plan self question st
      = (match r with
         | Ok raw_output => Ok (mkPlan raw_output [])
         | Raise e => Raise e
         end, mkState (memory st) w' (log st))
  end.
Proof.
  unfold plan, mbind, M_bind, mret, M_ret, in_world.
  destruct (llm self) as [generate|].
  - by destruct (generate _ (world st)) as [[raw_output|e] w'].
  - by destruct st.
Qed.

Lemma plan_frame self (question : string) st (r : pyresult Plan) (st1 : state W) :
  plan self question st = (r, st1) →
  memory st1 = memory st ∧ log st1 = log st.
Proof.
  pose proof (plan_cases self question st) as Hp.
  destruct (llm self) as [generate|].
  - destruct (generate _ (world st)) as [r0 w']. rewrite Hp. by intros [= <- <-].
  - rewrite Hp. by intros [= <- <-].
Qed.

Lemma plan_returns self (question : string) st :
  model_call_returns self question st = true →
  ∃ raw_output w',
    plan self question st
    = (Ok (mkPlan raw_output []), mkState (memory st) w' (log st)).
Proof.
  unfold model_call_returns. pose proof (plan_cases self question st) as Hp.
  destruct (llm self) as [generate|].
  - destruct (generate _ (world st)) as [[raw_output|e] w']; [|done].
    intros _. eauto.
  - intros _. exists (VStr "[]"), (world st). rewrite Hp. by destruct st.
Qed.

(** C9. An llm object without [generate] makes [plan] return, in an
    unchanged state, the plan whose raw output is the string "[]" and
    whose steps are empty. For every llm, a plan that [plan] returns has no
    steps, and [plan] raises only what [generate] raised. *)
Theorem plan_steps_empty self (question : string) st :
  (∀ (tb : KGToolbox.t W) (ex : KGExecutor.t) sel,
     plan (mk None tb ex sel) question st = (Ok (mkPlan (VStr "[]") []), st))
  ∧ match plan self question st with
    | (Ok p, _) => steps p = []
    | (Raise e, _) =>
        ∃ generate, llm self = Some generate
          ∧ (generate ("Plan steps for: " +:+ question) (world st)).1 = Raise e
    end.
Proof.
  split.
  - intros tb ex sel. apply (plan_cases (mk None tb ex sel)).
  - pose proof (plan_cases self question st) as Hp.
    destruct (llm self) as [generate|]; [|by rewrite Hp].
    destruct (generate _ (world st)) as [[raw_output|e] w'] eqn:Hg;
      rewrite Hp; [done|]. exists generate. by rewrite Hg.
Qed.

(** When the selector's first answer is [None] the loop ends at once,
    whatever is left of the budget. *)
Lemma iterate_stops self p (question : string) (indices : list nat)
    (result : value) st :
  (select_tool self p (memory st) (world st)).1 = None →
  ∃ w', iterate self p question indices result st
        = (Ok result, mkState (memory st) w' (log st)).
Proof.
  intros Hnone. destruct indices as [|i rest].
  - exists (world st). by destruct st.
  - cbn [iterate]. unfold mbind, M_bind, call_select_tool.
    destruct (select_tool self p (memory st) (world st)) as [name w'].
    cbn in Hnone. subst name. by exists w'.
Qed.

(** C3. If planning returns and the selector answers [None] when first
    asked, as the shipped [select_tool] does, then for every question and
    every [max_iterations] the run returns [None], and neither the memory
    nor the record of tool calls and writes has changed. *)
Theorem run_stops_at_first_selection self (question : string)
    (max_iterations : Z) st p (st1 : state W) :
  plan self question st = (Ok p, st1) →
  (select_tool self p (memory st1) (world st1)).1 = None →
  ∃ w', run self question max_iterations st
        = (Ok VNone, mkState (memory st) w' (log st)).
Proof.
  intros Hplan Hnone. destruct (plan_frame _ _ _ _ _ Hplan) as [Hmem Hlog].
  unfold run, mbind, M_bind. rewrite Hplan.
  destruct (iterate_stops self p question (seq 0 (Z.to_nat max_iterations))
              VNone st1 Hnone) as [w' ->].
  exists w'. by rewrite Hmem, Hlog.
Qed.

(** One round of the loop: the selector names a registered tool and that
    tool, applied to the question, returns [out]. The round calls it,
    writes [out] under the key of the round and goes on with [out] as the
    result so far. *)
Lemma iterate_round self p (question : string) (i : nat) (rest : list nat)
    (result : value) (m : KnowledgeMemory.t) (w : W) (l : list event)
    (name : string) (w1 w2 : W) (fn : KGToolbox.callable W) (out : value) :
  select_tool self p m w = (Some name, w1) →
  KGToolbox.tools (toolbox self) !! name = Some fn →
  fn [VStr question] [] w1 = (Ok out, w2) →
  iterate self p question (i :: rest) result (mkState m w l)
  = iterate self p question rest out
      (mkState (KnowledgeMemory.write m (step_key i) out) w2
               (l ++ [Invoked name [VStr question] (Ok out);
                      Written (step_key i) out])).
Proof.
  intros Hsel Hfn Hcall.
  cbn [iterate]. unfold mbind at 1. unfold M_bind at 1. unfold call_select_tool.
  cbn [memory world log]. rewrite Hsel.
  unfold mbind at 1. unfold M_bind at 1.
  unfold execute_tool, KGToolbox.call. cbn [memory world log].
  rewrite Hfn, Hcall.
  unfold mbind at 1. unfold M_bind at 1. unfold update_memory.
  cbn [memory world log]. by rewrite <- app_assoc.
Qed.


End AgentFacts.

Lemma run_stops_at_first_selection_witness :
  ∃ w', KGAgent.run shipped_agent "Who is two hops away from Alice?" 10
          (KGAgent.start None 0%nat)
        = (Ok VNone, KGAgent.mkState KnowledgeMemory.fresh w' []).
Proof.
  apply (run_stops_at_first_selection shipped_agent
           "Who is two hops away from Alice?" 10 (KGAgent.start None 0%nat)
           (KGAgent.mkPlan (VStr "[]") []) (KGAgent.start None 0%nat));
    reflexivity.
Defined.


(** Outside those hypotheses the run aborts, as nothing in [run] catches
    an exception: an unregistered tool name ends it with the toolbox's
    [KeyError] before any call or write, and so does a [generate] that
    raises. *)
Example run_unregistered_tool :
  KGAgent.run stray_agent "q" 3 (KGAgent.start None 0%nat)
  = (Raise (KeyError "Tool lookup not registered"), KGAgent.start None 0%nat).
Proof. reflexivity. Qed.

Example run_model_call_fails :
  KGAgent.run (KGAgent.init (Some failing_generate) counting_toolbox chain_executor)
    "q" 3 (KGAgent.start None 0%nat)
  = (Raise (OtherError "RuntimeError" "Plan steps for: q"), KGAgent.start None 0%nat).
Proof. reflexivity. Qed.

(** * Further properties of the code *)

(** ** Memory: overwriting and histories *)

Section MemoryHistory.
Import KnowledgeMemory.

Lemma writes_snoc (m : t) (ws : list (string * value)) (kv : string * value) :
  writes m (ws ++ [kv]) = write (writes m ws) kv.1 kv.2.
Proof. unfold writes. by rewrite foldl_app. Qed.

Lemma writes_cons (m : t) (ws : list (string * value)) (kv : string * value) :
  writes m (kv :: ws) = writes (write m kv.1 kv.2) ws.
Proof. done. Qed.

(** X1. [write] is an upsert: a key that is there keeps the store at its
    size and only changes that entry, a new key adds one entry; either way
    the other keys read as before and an earlier value under the same key
    is gone without trace. *)
Theorem write_upsert (m : t) (key : string) (v : value) :
  size (store (write m key v))
  = match store m !! key with
    | Some _ => size (store m)
    | None => Datatypes.S (size (store m))
    end
  ∧ (∀ key', key' ≠ key → read (write m key v) key' = read m key')
  ∧ (∀ v0, write (write m key v0) key v = write m key v).
Proof.
  split; [|split].
  - cbn. destruct (store m !! key) eqn:Hk.
    + by apply map_size_insert_Some.
    + by apply map_size_insert_None.
  - intros key' Hne. unfold read, write. cbn. by rewrite lookup_insert_ne.
  - intros v0. unfold write. cbn. by rewrite insert_insert_eq.
Qed.

Lemma write_upsert_witness :
  size (store (write (write fresh "a" (VInt 1)) "a" (VInt 2))) = 1%nat
  ∧ read (write (write fresh "a" (VInt 1)) "b" VNone) "a" = VInt 1.
Proof.
  split.
  - destruct (write_upsert (write fresh "a" (VInt 1)) "a" (VInt 2)) as (Hsize & _ & _).
    exact Hsize.
  - destruct (write_upsert (write fresh "a" (VInt 1)) "b" VNone) as (_ & Hother & _).
    rewrite (Hother "a"); [reflexivity|discriminate].
Defined.

(** X2. After any sequence of writes, [read(key)] gives the value of the
    most recent write to [key], and what the memory held before when the
    sequence has none. *)
Theorem read_after_writes (m : t) (ws : list (string * value)) (key : string) :
  read (writes m ws) key
  = match last (filter (λ kv, kv.1 = key) ws) with
    | Some kv => kv.2
    | None => read m key
    end.
Proof.
  induction ws as [|[k v] ws IH] using rev_ind; [done|].
  rewrite writes_snoc, filter_app. cbn [fst snd].
  destruct (decide (k = key)) as [->|Hne].
  - rewrite filter_cons_True by done. rewrite filter_nil, last_snoc.
    unfold read, write. cbn. by rewrite lookup_insert_eq.
  - rewrite filter_cons_False by done. rewrite filter_nil, app_nil_r, <- IH.
    unfold read, write. cbn. by rewrite lookup_insert_ne.
Qed.

(** When the keys of a history are pairwise different, every value
    written can be read back at the end. *)
Lemma read_writes_NoDup (m : t) (ws : list (string * value)) (i : nat)
    (key : string) (v : value) :
  NoDup ws.*1 → ws !! i = Some (key, v) → read (writes m ws) key = v.
Proof.
  revert m i. induction ws as [|[k0 v0] ws IH]; intros m i Hnd Hi; [done|].
  rewrite fmap_cons in Hnd. apply NoDup_cons in Hnd as [Hnot Hnd].
  rewrite writes_cons. destruct i as [|i].
  - injection Hi as -> ->. cbn [fst snd].
    pose proof (store_writes_other ws (write m key v) key Hnot) as Hst.
    unfold read. rewrite Hst. cbn. by rewrite lookup_insert_eq.
  - by apply (IH _ i).
Qed.

End MemoryHistory.

(** ** Graph store: what [load_triples] builds *)

Section LoadFacts.
Import KGExecutor.

(** The adjacency dict of every node after [add_edge(u, v, **attr)]. *)
Lemma add_edge_lookup (G : nx.DiGraph) (u v x : string) (attr : nx.attrs) :
  nx.succ (nx.add_edge G u v attr) !! x
  = if decide (x = u)
    then Some (<[v := attr ∪ default ∅ (default ∅ (nx.succ G !! u) !! v)]>
                 (default ∅ (nx.succ G !! u)))
    else if decide (x = v) then Some (default ∅ (nx.succ G !! v))
    else nx.succ G !! x.
Proof.
  unfold nx.add_edge. cbn.
  assert (Hu : nx.ensure_node v (nx.ensure_node u (nx.succ G)) !! u
               = Some (default ∅ (nx.succ G !! u))).
  { rewrite !ensure_node_lookup. destruct (nx.succ G !! u); [done|].
    by rewrite decide_True. }
  rewrite Hu. cbn. rewrite lookup_insert.
  destruct (decide (x = u)) as [->|Hxu].
  - by rewrite decide_True.
  - rewrite decide_False by done. rewrite !ensure_node_lookup.
    destruct (nx.succ G !! x) eqn:Hx.
    + by destruct (decide (x = v)) as [->|]; [rewrite Hx|].
    + rewrite (decide_False (P := u = x)) by done.
      destruct (decide (x = v)) as [->|Hxv].
      * by rewrite decide_True, Hx.
      * by rewrite decide_False.
Qed.

Lemma add_edge_has_node (G : nx.DiGraph) (u v x : string) (attr : nx.attrs) :
  nx.has_node (nx.add_edge G u v attr) x = true
  ↔ x = u ∨ x = v ∨ nx.has_node G x = true.
Proof.
  unfold nx.has_node. rewrite !bool_decide_eq_true, add_edge_lookup.
  destruct (decide (x = u)) as [->|Hxu]; [split; eauto|].
  destruct (decide (x = v)) as [->|Hxv]; [split; eauto|].
  split; [eauto|]. by intros [?|[?|?]].
Qed.

Lemma add_edge_edge_data (G : nx.DiGraph) (u v x y : string) (attr : nx.attrs) :
  nx.get_edge_data (nx.add_edge G u v attr) x y
  = if decide (x = u ∧ y = v)
    then Some (attr ∪ default ∅ (nx.get_edge_data G u v))
    else nx.get_edge_data G x y.
Proof.
  unfold nx.get_edge_data. rewrite add_edge_lookup.
  destruct (decide (x = u)) as [->|Hxu].
  - cbn. rewrite lookup_insert. destruct (decide (y = v)) as [->|Hyv].
    + rewrite decide_True by done. rewrite decide_True by done.
      by destruct (nx.succ G !! u).
    + rewrite (decide_False (P := v = y)) by congruence.
      rewrite (decide_False (P := u = u ∧ y = v)) by (intros [_ ?]; congruence).
      by destruct (nx.succ G !! u).
  - rewrite (decide_False (P := x = u ∧ y = v)) by (intros [? _]; congruence).
    destruct (decide (x = v)) as [->|Hxv]; [|done].
    by destruct (nx.succ G !! v).
Qed.

Lemma has_edge_edge_data (G : nx.DiGraph) (u v : string) :
  nx.has_edge G u v = true ↔ is_Some (nx.get_edge_data G u v).
Proof.
  unfold nx.has_edge, nx.get_edge_data.
  destruct (nx.succ G !! u) as [adj|]; cbn.
  - by rewrite bool_decide_eq_true.
  - split; [done|]. by intros [? ?].
Qed.

Lemma load_triples_snoc (ex : t) (triples : list triple) (s p o : string) :
  load_triples ex (triples ++ [(s, p, o)])
  = mk (nx.add_edge (graph (load_triples ex triples)) s o {["predicate" := p]}).
Proof. unfold load_triples. by rewrite foldl_app. Qed.

(** The nodes after [load_triples]. *)
Lemma load_triples_has_node (ex : t) (triples : list triple) (n : string) :
  nx.has_node (graph (load_triples ex triples)) n = true
  ↔ nx.has_node (graph ex) n = true
    ∨ ∃ s p o, (s, p, o) ∈ triples ∧ (n = s ∨ n = o).
Proof.
  induction triples as [|[[s p] o] triples IH] using rev_ind.
  - split; [by left|]. intros [?|(s & p & o & Hin & _)]; [done|].
    by apply elem_of_nil in Hin.
  - rewrite load_triples_snoc. cbn [graph]. rewrite add_edge_has_node, IH.
    setoid_rewrite elem_of_app. setoid_rewrite list_elem_of_singleton. split.
    + intros [->|[->|[?|(s' & p' & o' & Hin & Hn)]]].
      * right. exists s, p, o. split; [by right|by left].
      * right. exists s, p, o. split; [by right|by right].
      * by left.
      * right. exists s', p', o'. split; [by left|done].
    + intros [?|(s' & p' & o' & [Hin|[= -> -> ->]] & Hn)].
      * by right; right; left.
      * right; right; right. by exists s', p', o'.
      * destruct Hn as [->| ->]; [by left|by right; left].
Qed.

(** The edges after [load_triples]. *)
Lemma load_triples_has_edge (ex : t) (triples : list triple) (a b : string) :
  nx.has_edge (graph (load_triples ex triples)) a b = true
  ↔ nx.has_edge (graph ex) a b = true ∨ ∃ p, (a, p, b) ∈ triples.
Proof.
  induction triples as [|[[s p] o] triples IH] using rev_ind.
  - split; [by left|]. intros [?|(p & Hin)]; [done|].
    by apply elem_of_nil in Hin.
  - rewrite load_triples_snoc. cbn [graph].
    rewrite has_edge_edge_data, add_edge_edge_data.
    setoid_rewrite elem_of_app. setoid_rewrite list_elem_of_singleton.
    destruct (decide (a = s ∧ b = o)) as [[-> ->]|Hne].
    + split; [|eauto]. intros _. right. exists p. by right.
    + rewrite <- has_edge_edge_data, IH. split.
      * intros [?|(p' & Hin)]; [by left|]. right. exists p'. by left.
      * intros [?|(p' & [Hin|[= -> -> ->]])]; [by left| |].
        -- right. by exists p'.
        -- by destruct Hne.
Qed.

(** X3. The nodes after [load_triples] are the nodes there were and the
    subjects and objects of the triples, and no others. *)
Theorem load_triples_nodes (ex : t) (triples : list triple) (n : string) :
  nx.has_node (graph (load_triples ex triples)) n = true
  ↔ nx.has_node (graph ex) n = true
    ∨ ∃ s p o, (s, p, o) ∈ triples ∧ (n = s ∨ n = o).
Proof. apply load_triples_has_node. Qed.

(** X4. The edges after [load_triples] are the edges there were and one
    edge from subject to object for each triple, and no others: the
    predicate is never a node or an edge of its own. *)
Theorem load_triples_edges (ex : t) (triples : list triple) (a b : string) :
  nx.has_edge (graph (load_triples ex triples)) a b = true
  ↔ nx.has_edge (graph ex) a b = true ∨ ∃ p, (a, p, b) ∈ triples.
Proof. apply load_triples_has_edge. Qed.

Lemma singleton_union_twice (k x y : string) (m : nx.attrs) :
  ({[k := x]} ∪ ({[k := y]} ∪ m) : nx.attrs) = {[k := x]} ∪ m.
Proof. by rewrite <- !insert_union_singleton_l, insert_insert_eq. Qed.

(** The attribute dict of an edge after [load_triples]: the predicate of
    the last triple for that pair, on top of what the edge had. *)
Lemma load_triples_edge_data (ex : t) (triples : list triple) (x y : string) :
  nx.get_edge_data (graph (load_triples ex triples)) x y
  = match last (filter (λ t : triple, t.1.1 = x ∧ t.2 = y) triples) with
    | Some t => Some ({["predicate" := t.1.2]}
                        ∪ default ∅ (nx.get_edge_data (graph ex) x y))
    | None => nx.get_edge_data (graph ex) x y
    end.
Proof.
  induction triples as [|[[s p] o] triples IH] using rev_ind; [done|].
  rewrite load_triples_snoc, filter_app. cbn [graph]. rewrite add_edge_edge_data.
  destruct (decide (x = s ∧ y = o)) as [[-> ->]|Hne].
  - rewrite filter_cons_True by done. rewrite filter_nil, last_snoc. cbn [fst snd].
    rewrite IH.
    destruct (last (filter (λ t : triple, t.1.1 = s ∧ t.2 = o) triples)) as [t|];
      [|done].
    cbn [from_option id]. f_equal. apply singleton_union_twice.
  - rewrite filter_cons_False by (cbn; intros [? ?]; by destruct Hne).
    by rewrite filter_nil, app_nil_r.
Qed.

(** X5. After [load_triples] the predicate stored on the edge from [s] to
    [o] is that of the last triple of the list with subject [s] and object
    [o]; an edge that no triple names keeps what it had. *)
Theorem load_triples_predicate (ex : t) (triples : list triple) (s o : string) :
  edge_predicate (graph (load_triples ex triples)) s o
  = match last (filter (λ t : triple, t.1.1 = s ∧ t.2 = o) triples) with
    | Some t => Some t.1.2
    | None => edge_predicate (graph ex) s o
    end.
Proof.
  unfold edge_predicate. rewrite load_triples_edge_data.
  destruct (last (filter (λ t : triple, t.1.1 = s ∧ t.2 = o) triples)) as [t|];
    [|done].
  cbn. apply lookup_union_Some_l, lookup_singleton_eq.
Qed.

(** Two graphs with the same nodes and the same edge data are the same. *)
Lemma digraph_ext (G1 G2 : nx.DiGraph) :
  (∀ x, nx.has_node G1 x = true ↔ nx.has_node G2 x = true) →
  (∀ x y, nx.get_edge_data G1 x y = nx.get_edge_data G2 x y) →
  G1 = G2.
Proof.
  destruct G1 as [s1], G2 as [s2]. unfold nx.has_node, nx.get_edge_data. cbn.
  intros Hnodes Hdata. f_equal. apply map_eq. intros x.
  specialize (Hnodes x). rewrite !bool_decide_eq_true in Hnodes.
  pose proof (Hdata x) as Hx.
  destruct (s1 !! x) as [adj1|], (s2 !! x) as [adj2|]; cbn in Hx.
  - f_equal. by apply map_eq.
  - destruct Hnodes as [Hn _]. by destruct Hn as [? ?]; [eauto|].
  - destruct Hnodes as [_ Hn]. by destruct Hn as [? ?]; [eauto|].
  - done.
Qed.

(** X6. Loading the same list of triples a second time changes nothing. *)
Theorem load_triples_twice (ex : t) (triples : list triple) :
  load_triples (load_triples ex triples) triples = load_triples ex triples.
Proof.
  assert (Hext : ∀ e1 e2 : t, graph e1 = graph e2 → e1 = e2)
    by (intros [g1] [g2]; cbn; by intros ->).
  apply Hext, digraph_ext.
  - intros x. rewrite (load_triples_has_node (load_triples ex triples) triples).
    rewrite (load_triples_has_node ex triples). split; [|by left].
    intros [?|?]; [done|by right].
  - intros x y. rewrite (load_triples_edge_data (load_triples ex triples) triples).
    rewrite (load_triples_edge_data ex triples).
    destruct (last (filter (λ t : triple, t.1.1 = x ∧ t.2 = y) triples)) as [t|];
      [|done].
    cbn [from_option id]. f_equal. apply singleton_union_twice.
Qed.

(** X7. In every graph that [load_triples] builds from the empty graph,
    both ends of every edge are nodes, so a successor can itself be asked
    for its successors. *)
Theorem load_triples_endpoints (triples : list triple) (u v : string) :
  nx.has_edge (graph (load_triples (init None) triples)) u v = true →
  nx.has_node (graph (load_triples (init None) triples)) u = true
  ∧ nx.has_node (graph (load_triples (init None) triples)) v = true.
Proof.
  rewrite (load_triples_has_edge (init None) triples).
  rewrite (load_triples_has_node (init None) triples u).
  rewrite (load_triples_has_node (init None) triples v).
  intros [Hedge|(p & Hin)]; [done|].
  split; right; exists u, p, v; (split; [done|]); [by left|by right].
Qed.

(** X24. The order of the triples decides which predicate an edge ends
    up with and nothing else: two lists with the same triples in any order
    give the same nodes and the same edges. *)
Theorem load_triples_order (ex : t) (triples triples' : list triple)
    (n u v : string) :
  triples ≡ₚ triples' →
  nx.has_node (graph (load_triples ex triples)) n
  = nx.has_node (graph (load_triples ex triples')) n
  ∧ nx.has_edge (graph (load_triples ex triples)) u v
    = nx.has_edge (graph (load_triples ex triples')) u v.
Proof.
  intros Hperm. split; apply Bool.eq_true_iff_eq.
  - rewrite (load_triples_has_node ex triples), (load_triples_has_node ex triples').
    by setoid_rewrite Hperm.
  - rewrite (load_triples_has_edge ex triples), (load_triples_has_edge ex triples').
    by setoid_rewrite Hperm.
Qed.

Lemma load_triples_order_witness :
  nx.has_node (graph (load_triples (init None) [("B", "r2", "C"); ("A", "r1", "B")])) "C"
  = nx.has_node (graph chain_executor) "C"
  ∧ nx.has_edge (graph (load_triples (init None) [("B", "r2", "C"); ("A", "r1", "B")]))
      "A" "B"
    = nx.has_edge (graph chain_executor) "A" "B".
Proof.
  apply (load_triples_order (init None) [("B", "r2", "C"); ("A", "r1", "B")]
           chain_triples "C" "A" "B").
  apply Permutation_swap.
Defined.

(** X25. Loading in batches is loading at once: [load_triples] of a list
    followed by [load_triples] of another is [load_triples] of the two
    lists joined, and an empty list changes nothing. *)
Theorem load_triples_batches (ex : t) (triples triples' : list triple) :
  load_triples (load_triples ex triples) triples' = load_triples ex (triples ++ triples')
  ∧ load_triples ex [] = ex.
Proof.
  split.
  - unfold load_triples. cbn [graph]. by rewrite foldl_app.
  - by destruct ex.
Qed.

Lemma load_triples_nodes_witness :
  nx.has_node (graph (load_triples chain_executor [("C", "r3", "D")])) "D" = true
  ∧ nx.has_node (graph chain_executor) "r1" = false.
Proof.
  split.
  - apply (load_triples_nodes chain_executor [("C", "r3", "D")] "D").
    right. exists "C", "r3", "D". split; [|by right]. apply list_elem_of_In. by left.
  - destruct (nx.has_node (graph chain_executor) "r1") eqn:Hnode; [|reflexivity].
    apply (load_triples_nodes (init None) chain_triples "r1") in Hnode
      as [Hold|(s & p & o & Hin & Hn)]; [discriminate Hold|].
    apply list_elem_of_In in Hin.
    destruct Hin as [[= <- <- <-]|[[= <- <- <-]|[]]];
      destruct Hn as [Hn|Hn]; discriminate Hn.
Defined.

Lemma load_triples_edges_witness :
  nx.has_edge (graph (load_triples chain_executor [("C", "r3", "D")])) "C" "D" = true.
Proof.
  apply (load_triples_edges chain_executor [("C", "r3", "D")] "C" "D").
  right. exists "r3". apply list_elem_of_In. by left.
Defined.

Lemma load_triples_endpoints_witness :
  nx.has_node (graph chain_executor) "A" = true
  ∧ nx.has_node (graph chain_executor) "B" = true.
Proof. apply (load_triples_endpoints chain_triples "A" "B"). reflexivity. Defined.

End LoadFacts.

(** ** Graph store: what [query_neighbors] returns *)

Section QueryFacts.
Import KGExecutor.

Lemma hops_target_node (G : nx.DiGraph) (j : nat) (n x : string) :
  nx.closed G → nx.hops G j n x → nx.has_node G x = true.
Proof.
  intros Hclosed Hh. unfold nx.has_node. apply bool_decide_eq_true.
  induction Hh as [u v He|k u w v He Hh IH]; [by eapply Hclosed|done].
Qed.

Lemma hops_positive (G : nx.DiGraph) (j : nat) (n x : string) :
  nx.hops G j n x → (1 ≤ j)%nat.
Proof. destruct 1; lia. Qed.

(** X8. On a graph in which every successor is a node, extended by
    [load_triples] or not, a query from a node of the graph returns, for
    every depth: the list has no repetition, it holds exactly the nodes
    that some path of 1 to [depth] edges from the start reaches, and all of
    them are nodes of the graph. *)
Theorem query_neighbors_reachable (ex : t) (triples : list triple)
    (n : string) (depth : Z) :
  nx.closed (graph ex) →
  nx.has_node (graph (load_triples ex triples)) n = true →
  ∃ l, query_neighbors (load_triples ex triples) n depth = Ok l
       ∧ NoDup l
       ∧ (∀ x, x ∈ l ↔ ∃ j, (1 ≤ j ≤ Z.to_nat depth)%nat
                            ∧ nx.hops (graph (load_triples ex triples)) j n x)
       ∧ (∀ x, x ∈ l → nx.has_node (graph (load_triples ex triples)) x = true).
Proof.
  intros Hclosed Hnode.
  pose proof (load_triples_closed ex triples Hclosed) as Hclosed'.
  destruct (query_neighbors_present _ n depth Hclosed' Hnode) as (l & Hq & Hnd & Hl).
  exists l. split; [done|]. split; [done|]. split; [done|].
  intros x Hx. apply Hl in Hx as (j & _ & Hh). by eapply hops_target_node.
Qed.

Lemma query_neighbors_reachable_witness :
  ∃ l, query_neighbors chain_executor "A" 2 = Ok l
       ∧ NoDup l
       ∧ (∀ x, x ∈ l ↔ ∃ j, (1 ≤ j ≤ 2)%nat ∧ nx.hops (graph chain_executor) j "A" x)
       ∧ (∀ x, x ∈ l → nx.has_node (graph chain_executor) x = true).
Proof.
  apply (query_neighbors_reachable (init None) chain_triples "A" 2).
  - apply empty_closed.
  - reflexivity.
Defined.

(** X9. A deeper query never loses a node: on such a graph, what depth
    [d] returns is among what any depth [d' >= d] returns. *)
Theorem query_neighbors_monotone (ex : t) (n : string) (d d' : Z) :
  nx.closed (graph ex) → nx.has_node (graph ex) n = true → d ≤ d' →
  ∃ l l', query_neighbors ex n d = Ok l ∧ query_neighbors ex n d' = Ok l'
          ∧ l ⊆ l'.
Proof.
  intros Hclosed Hnode Hle.
  destruct (query_neighbors_present ex n d Hclosed Hnode) as (l & Hq & _ & Hl).
  destruct (query_neighbors_present ex n d' Hclosed Hnode) as (l' & Hq' & _ & Hl').
  exists l, l'. split; [done|]. split; [done|].
  intros x Hx. apply Hl in Hx as (j & Hj & Hh). apply Hl'. exists j.
  split; [lia|done].
Qed.

Lemma query_neighbors_monotone_witness :
  ∃ l l', query_neighbors chain_executor "A" 1 = Ok l
          ∧ query_neighbors chain_executor "A" 5 = Ok l' ∧ l ⊆ l'.
Proof.
  apply (query_neighbors_monotone chain_executor "A" 1 5).
  - apply (load_triples_closed (init None) chain_triples), empty_closed.
  - reflexivity.
  - lia.
Defined.

(** X10. A depth below 1, negative ones included, is not refused: the
    query returns the empty list for every node, in the graph or not. *)
Theorem query_neighbors_nonpositive (ex : t) (n : string) (depth : Z) :
  depth ≤ 0 → query_neighbors ex n depth = Ok [].
Proof.
  intros Hd. unfold query_neighbors, neighbor_set.
  replace (Z.to_nat depth) with 0%nat by lia. cbn [layers].
  unfold fmap, pyresult_fmap. by rewrite elements_empty.
Qed.

Lemma query_neighbors_nonpositive_witness :
  query_neighbors chain_executor "Z" (-3) = Ok [].
Proof. apply (query_neighbors_nonpositive chain_executor "Z" (-3)). lia. Defined.

Lemma layers_empty_frontier (G : nx.DiGraph) (k : nat) (neighbors : gset string) :
  layers G k neighbors ∅ = Ok neighbors.
Proof.
  revert neighbors. induction k as [|k IH]; intros neighbors; [done|].
  cbn [layers]. rewrite elements_empty. cbn.
  by rewrite (right_id_L ∅ (∪)), IH.
Qed.

(** X11. With the default depth 1 the query is [successors]: the direct
    successors of a node of the graph, and the error of [successors] for a
    node that is not in it. *)
Theorem query_neighbors_depth_1 (ex : t) (n : string) :
  query_neighbors ex n 1 = elements <$> nx.successors (graph ex) n.
Proof.
  unfold query_neighbors, neighbor_set. change (Z.to_nat 1) with 1%nat.
  cbn [layers]. rewrite elements_singleton. cbn [update_successors].
  destruct (nx.successors (graph ex) n) as [succs|e]; [|done].
  cbn. by rewrite !(left_id_L ∅ (∪)).
Qed.

(** X12. A node of the graph without outgoing edges has no neighbours at
    any depth: the frontier is empty after the first layer and the later
    layers add nothing. *)
Theorem query_neighbors_sink (ex : t) (n : string) (depth : Z) :
  nx.successors (graph ex) n = Ok ∅ → query_neighbors ex n depth = Ok [].
Proof.
  intros Hsink. unfold query_neighbors, neighbor_set.
  destruct (Z.to_nat depth) as [|k].
  - cbn [layers]. unfold fmap, pyresult_fmap. by rewrite elements_empty.
  - cbn [layers]. rewrite elements_singleton. cbn [update_successors].
    rewrite Hsink. cbn. rewrite !(left_id_L ∅ (∪)), layers_empty_frontier.
    unfold fmap, pyresult_fmap. by rewrite elements_empty.
Qed.

Lemma query_neighbors_sink_witness :
  query_neighbors chain_executor "C" 4 = Ok [].
Proof. apply (query_neighbors_sink chain_executor "C" 4). reflexivity. Defined.

End QueryFacts.

(** ** Toolbox: registering *)

Section RegisterFacts.
Import KGToolbox.
Context {W : Type}.

(** X13. [register] is an upsert: registering a name again replaces the
    operation, so that a call reaches the last one registered, and the
    calls of every other name go where they went before. *)
Theorem register_upsert (self : t W) (x : string) (f g : callable W)
    (args : list value) (kwargs : list (string * value)) (w : W) :
  register (register self x f) x g = register self x g
  ∧ call (register (register self x f) x g) x args kwargs w = g args kwargs w
  ∧ (∀ y, y ≠ x →
       call (register self x f) y args kwargs w = call self y args kwargs w).
Proof.
  split; [|split].
  - unfold register. cbn. by rewrite insert_insert_eq.
  - unfold call, register. cbn. by rewrite lookup_insert_eq.
  - intros y Hne. unfold call, register. cbn. by rewrite lookup_insert_ne.
Qed.

End RegisterFacts.

Lemma register_upsert_witness :
  KGToolbox.call
    (KGToolbox.register counting_toolbox "echo" (λ args _ n, (Ok (VList args), n)))
    "count" [VStr "q"] [] 4%nat
  = (Ok (VList [VInt 4; VStr "q"]), 5%nat).
Proof.
  destruct (register_upsert counting_toolbox "echo"
              (λ args _ n, (Ok (VList args), n)) (λ args _ n, (Ok (VList args), n))
              [VStr "q"] [] 4%nat) as (_ & _ & Hother).
  rewrite (Hother "count"); [reflexivity|discriminate].
Defined.

(** ** Agent loop: the shape of every run *)

Section RunFacts.
Import KGAgent.
Context {W : Type}.
Implicit Types (self : t W) (st : state W) (p : Plan).

Lemma memory_writes_rounds (question : string) (indices : list nat)
    (outs : list (string * value)) :
  memory_writes (rounds question indices outs)
  = zip (step_key <$> indices) outs.*2.
Proof.
  revert outs. induction indices as [|i indices IH]; intros [|[name out] outs];
    cbn; try done.
  by rewrite <- IH.
Qed.

Lemma invocations_rounds (question : string) (indices : list nat)
    (outs : list (string * value)) :
  (length outs ≤ length indices)%nat →
  invocations (rounds question indices outs)
  = (λ d : string * value, (d.1, [VStr question], Ok d.2)) <$> outs.
Proof.
  revert outs. induction indices as [|i indices IH]; intros [|[name out] outs] Hlen;
    cbn in Hlen |- *; try done; try lia.
  rewrite <- IH by lia. done.
Qed.

Lemma default_last_cons {A : Type} (x y : A) (l : list A) :
  default x (last (y :: l)) = default y (last l).
Proof. rewrite last_cons. by destruct (last l). Qed.

(** Every run of the loop is a number of completed rounds, followed by
    nothing or by the one tool call that raised. *)
Lemma iterate_trace self p (question : string) (indices : list nat)
    (result : value) st (r : pyresult value) (st' : state W) :
  iterate self p question indices result st = (r, st') →
  ∃ (outs : list (string * value)) (tail : list event),
    (length outs ≤ length indices)%nat
    ∧ log st' = log st ++ rounds question indices outs ++ tail
    ∧ memory st'
      = KnowledgeMemory.writes (memory st)
          (memory_writes (rounds question indices outs))
    ∧ match r with
      | Ok v => tail = [] ∧ v = default result (last outs.*2)
      | Raise e =>
          (length outs < length indices)%nat
          ∧ ∃ name,
              (tail = [Invoked name [VStr question] (Raise e)]
               ∧ is_Some (KGToolbox.tools (toolbox self) !! name))
              ∨ (tail = []
                 ∧ KGToolbox.tools (toolbox self) !! name = None
                 ∧ e = KeyError ("Tool " +:+ name +:+ " not registered"))
      end.
Proof.
  revert result st. induction indices as [|i rest IH]; intros result st Hrun.
  - injection Hrun as <- <-. exists [], []. by rewrite app_nil_r.
  - cbn [iterate] in Hrun. unfold mbind at 1 in Hrun. unfold M_bind at 1 in Hrun.
    unfold call_select_tool in Hrun.
    destruct (select_tool self p (memory st) (world st)) as [[name|] w1].
    2:{ injection Hrun as <- <-. exists [], []. cbn. rewrite app_nil_r.
        split; [lia|]. by repeat (split; [done|]). }
    unfold mbind at 1 in Hrun. unfold M_bind at 1 in Hrun.
    unfold execute_tool, KGToolbox.call in Hrun. cbn [memory world log] in Hrun.
    destruct (KGToolbox.tools (toolbox self) !! name) as [fn|] eqn:Hfn.
    2:{ injection Hrun as <- <-. exists [], []. cbn. rewrite !app_nil_r.
        split; [lia|]. split; [done|]. split; [done|]. split; [lia|].
        exists name. by right. }
    destruct (fn [VStr question] [] w1) as [[out|e] w2].
    2:{ injection Hrun as <- <-. exists [], [Invoked name [VStr question] (Raise e)].
        cbn. split; [lia|]. split; [done|]. split; [done|]. split; [lia|].
        exists name. left. eauto. }
    unfold mbind at 1 in Hrun. unfold M_bind at 1 in Hrun.
    unfold update_memory in Hrun. cbn [memory world log] in Hrun.
    apply IH in Hrun as (outs & tail & Hlen & Hlog & Hmem & Hr).
    cbn [memory log] in Hlog, Hmem.
    exists ((name, out) :: outs), tail. split; [cbn; lia|]. split; [|split].
    + rewrite Hlog. cbn [rounds]. by rewrite <- !app_assoc.
    + by rewrite Hmem.
    + destruct r as [v|e].
      * destruct Hr as [-> ->]. split; [done|].
        rewrite fmap_cons. cbn [snd]. by rewrite default_last_cons.
      * destruct Hr as [Hlt Hcause]. split; [cbn; lia|done].
Qed.

(** A run is its planning step followed by the loop, and planning leaves
    memory and the log alone. *)
Lemma run_cases self (question : string) (max_iterations : Z) st
    (r : pyresult value) (st' : state W) :
  run self question max_iterations st = (r, st') →
  (∃ e, plan self question st = (Raise e, st') ∧ r = Raise e
        ∧ memory st' = memory st ∧ log st' = log st)
  ∨ (∃ p st1, plan self question st = (Ok p, st1)
              ∧ memory st1 = memory st ∧ log st1 = log st
              ∧ iterate self p question (seq 0 (Z.to_nat max_iterations)) VNone st1
                = (r, st')).
Proof.
  unfold run, mbind, M_bind.
  destruct (plan self question st) as [[p|e] st1] eqn:Hplan;
    destruct (plan_frame _ _ _ _ _ Hplan) as [Hmem Hlog].
  - intros Hrun. right. by exists p, st1.
  - intros [= <- <-]. left. by exists e.
Qed.

End RunFacts.

Section RunShape.
Import KGAgent.
Context {W : Type}.
Implicit Types (self : t W) (st : state W) (p : Plan).

Lemma rounds_nil (question : string) (indices : list nat) :
  rounds question indices [] = [].
Proof. by destruct indices. Qed.

(** The shape of a whole run: planning, then completed rounds, then
    nothing or the tool call that raised. *)
Lemma run_trace self (question : string) (max_iterations : Z) st :
  ∃ (outs : list (string * value)) (tail : list event),
    (length outs ≤ Z.to_nat max_iterations)%nat
    ∧ log (run self question max_iterations st).2
      = log st ++ rounds question (seq 0 (Z.to_nat max_iterations)) outs ++ tail
    ∧ memory (run self question max_iterations st).2
      = KnowledgeMemory.writes (memory st)
          (memory_writes (rounds question (seq 0 (Z.to_nat max_iterations)) outs))
    ∧ match (run self question max_iterations st).1 with
      | Ok v => tail = [] ∧ v = default VNone (last outs.*2)
      | Raise e =>
          (outs = [] ∧ tail = [] ∧ (plan self question st).1 = Raise e)
          ∨ ((length outs < Z.to_nat max_iterations)%nat
             ∧ ∃ name,
                 (tail = [Invoked name [VStr question] (Raise e)]
                  ∧ is_Some (KGToolbox.tools (toolbox self) !! name))
                 ∨ (tail = []
                    ∧ KGToolbox.tools (toolbox self) !! name = None
                    ∧ e = KeyError ("Tool " +:+ name +:+ " not registered")))
      end.
Proof.
  destruct (run self question max_iterations st) as [r st'] eqn:Hrun.
  apply run_cases in Hrun as [(e & Hplan & -> & Hmem & Hlog)
                             |(p & st1 & Hplan & Hmem & Hlog & Hrun)].
  - exists [], []. cbn [fst snd]. rewrite Hplan, Hmem, Hlog, rounds_nil. cbn.
    rewrite app_nil_r. split; [lia|]. split; [done|]. split; [done|]. by left.
  - apply iterate_trace in Hrun as (outs & tail & Hlen & Hlog' & Hmem' & Hr).
    rewrite length_seq in Hlen. rewrite Hmem in Hmem'. rewrite Hlog in Hlog'.
    exists outs, tail. cbn [fst snd]. split; [done|]. split; [done|].
    split; [done|]. destruct r as [v|e]; [done|].
    right. by rewrite length_seq in Hr.
Qed.

Lemma memory_writes_app (l1 l2 : list event) :
  memory_writes (l1 ++ l2) = memory_writes l1 ++ memory_writes l2.
Proof. apply omap_app. Qed.

Lemma invocations_app (l1 l2 : list event) :
  invocations (l1 ++ l2) = invocations l1 ++ invocations l2.
Proof. apply omap_app. Qed.

(** What the end of a run's log can be. *)
Lemma tail_cases (question : string) (tail : list event) :
  tail = [] ∨ (∃ name e, tail = [Invoked name [VStr question] (Raise e)]) →
  memory_writes tail = []
  ∧ (length (invocations tail) ≤ 1)%nat
  ∧ Forall (λ c : string * list value * pyresult value, c.1.2 = [VStr question])
           (invocations tail).
Proof.
  intros [->|(name & e & ->)]; cbn; [by repeat constructor|].
  split; [done|]. split; [lia|]. by repeat constructor.
Qed.

Lemma run_tail self (question : string) (max_iterations : Z) st
    (outs : list (string * value)) (tail : list event) :
  match (run self question max_iterations st).1 with
  | Ok v => tail = [] ∧ v = default VNone (last outs.*2)
  | Raise e =>
      (outs = [] ∧ tail = [] ∧ (plan self question st).1 = Raise e)
      ∨ ((length outs < Z.to_nat max_iterations)%nat
         ∧ ∃ name,
             (tail = [Invoked name [VStr question] (Raise e)]
              ∧ is_Some (KGToolbox.tools (toolbox self) !! name))
             ∨ (tail = []
                ∧ KGToolbox.tools (toolbox self) !! name = None
                ∧ e = KeyError ("Tool " +:+ name +:+ " not registered")))
  end →
  (tail = [] ∨ ∃ name e, tail = [Invoked name [VStr question] (Raise e)])
  ∧ (length outs + length (invocations tail) ≤ Z.to_nat max_iterations
     ∨ tail = [])%nat.
Proof.
  destruct (run self question max_iterations st).1 as [v|e].
  - intros [-> _]. split; [by left|by right].
  - intros [(-> & -> & _)|(Hlt & name & [[-> _]|[-> _]])].
    + split; [by left|by right].
    + split; [right; eauto|]. left. cbn. lia.
    + split; [by left|by right].
Qed.

(** [f"step_{i}"] tells the indices apart. *)
Lemma step_key_inj (i j : nat) : step_key i = step_key j → i = j.
Proof.
  unfold step_key. intros Heq. apply String.app_inj in Heq.
  assert (Hnonnil : ∀ n, Nat.to_uint n ≠ Decimal.Nil).
  { intros n. rewrite <- (DecimalNat.Unsigned.of_to n) at 1.
    rewrite DecimalNat.Unsigned.to_of. apply DecimalFacts.unorm_nonnil. }
  apply DecimalNat.Unsigned.to_uint_inj.
  assert (Some (Nat.to_uint i) = Some (Nat.to_uint j)) as [= ->]; [|done].
  rewrite <- (NilZero.usu _ (Hnonnil i)), <- (NilZero.usu _ (Hnonnil j)).
  by rewrite Heq.
Qed.

End RunShape.

(** ** Agent loop: budget, keys, memory and failures *)

Section RunBounds.
Import KGAgent.
Context {W : Type}.
Implicit Types (self : t W) (st : state W) (p : Plan).

Lemma zip_take_l {A B : Type} (l1 : list A) (l2 : list B) :
  zip l1 l2 = zip (take (length l2) l1) l2.
Proof.
  revert l2. induction l1 as [|x l1 IH]; intros [|y l2]; cbn; try done.
  by rewrite <- IH.
Qed.

(** The writes of [k] completed rounds: [step_0] to [step_(k-1)], each
    with the output of its round. *)
Lemma rounds_writes (question : string) (n : nat) (outs : list (string * value)) :
  (length outs ≤ n)%nat →
  memory_writes (rounds question (seq 0 n) outs)
  = zip (step_key <$> seq 0 (length outs)) outs.*2.
Proof.
  intros Hlen. rewrite memory_writes_rounds, zip_take_l.
  rewrite length_fmap, <- fmap_take, take_seq.
  by replace (length outs `min` n)%nat with (length outs) by lia.
Qed.

Lemma rounds_writes_keys (question : string) (n : nat) (outs : list (string * value)) :
  (length outs ≤ n)%nat →
  (memory_writes (rounds question (seq 0 n) outs)).*1
  = step_key <$> seq 0 (length outs).
Proof.
  intros Hlen. rewrite rounds_writes by done.
  apply fst_zip. by rewrite !length_fmap, length_seq.
Qed.

Lemma rounds_writes_values (question : string) (n : nat) (outs : list (string * value)) :
  (length outs ≤ n)%nat →
  (memory_writes (rounds question (seq 0 n) outs)).*2 = outs.*2.
Proof.
  intros Hlen. rewrite rounds_writes by done.
  apply snd_zip. by rewrite !length_fmap, length_seq.
Qed.

(** X14. With [max_iterations <= 0] the loop body never runs: the run is
    its planning step, the selector is not asked, and the result is [None]
    unless planning raised. *)
Theorem run_without_budget self (question : string) (max_iterations : Z) st :
  max_iterations ≤ 0 →
  run self question max_iterations st
  = (match (plan self question st).1 with
     | Ok _ => Ok VNone
     | Raise e => Raise e
     end, (plan self question st).2).
Proof.
  intros Hmax. unfold run, mbind, M_bind.
  replace (Z.to_nat max_iterations) with 0%nat by lia.
  by destruct (plan self question st) as [[p|e] st1].
Qed.

(** Rounds that run to their end, seen from the loop: it goes on after
    them with the last output as its result, the memory and collaborator
    state they left, and their calls and writes on record. *)
Lemma iterate_completes self p (question : string) (done_idx rest : list nat)
    (result : value) (m : KnowledgeMemory.t) (w : W) (l : list event)
    (outs : list (string * value)) (m' : KnowledgeMemory.t) (w' : W) :
  completes self p question done_idx m w outs m' w' →
  iterate self p question (done_idx ++ rest) result (mkState m w l)
  = iterate self p question rest (default result (last outs.*2))
      (mkState m' w' (l ++ rounds question done_idx outs)).
Proof.
  intros Hc. revert result l.
  induction Hc as [m w|i idx m w name w1 fn out w2 outs m' w' Hsel Hfn Hcall Hc IH];
    intros result l.
  - cbn. by rewrite app_nil_r.
  - cbn [app]. rewrite (iterate_round self p question i _ result m w l
                          name w1 w2 fn out Hsel Hfn Hcall).
    rewrite IH, fmap_cons. cbn [snd rounds]. rewrite default_last_cons.
    by rewrite <- app_assoc.
Qed.


Lemma completes_memory self p (question : string) (indices : list nat)
    (m : KnowledgeMemory.t) (w : W) (outs : list (string * value))
    (m' : KnowledgeMemory.t) (w' : W) :
  completes self p question indices m w outs m' w' →
  m' = KnowledgeMemory.writes m (zip (step_key <$> indices) outs.*2).
Proof. induction 1 as [|???????????? Hsel Hfn Hcall Hc IH]; [done|]. by rewrite IH. Qed.


(** X16. The budget is a hard cap, whatever the selector and the tools
    do and however the run ends: it makes at most [max_iterations] tool
    calls, hands each of them the question as its only argument, and
    writes to memory at most once per call. *)
Theorem run_call_cap self (question : string) (max_iterations : Z) st :
  ∃ evs,
    log (run self question max_iterations st).2 = log st ++ evs
    ∧ (length (invocations evs) ≤ Z.to_nat max_iterations)%nat
    ∧ (length (memory_writes evs) ≤ length (invocations evs))%nat
    ∧ Forall (λ c : string * list value * pyresult value, c.1.2 = [VStr question])
             (invocations evs).
Proof.
  destruct (run_trace self question max_iterations st)
    as (outs & tail & Hlen & Hlog & _ & Hr).
  apply run_tail in Hr as [Htail Hcap].
  destruct (tail_cases question tail Htail) as (Hw & Hone & Hargs).
  exists (rounds question (seq 0 (Z.to_nat max_iterations)) outs ++ tail).
  split; [done|].
  rewrite invocations_app, memory_writes_app, Hw, app_nil_r, !length_app.
  rewrite invocations_rounds by (by rewrite length_seq).
  rewrite rounds_writes by done.
  rewrite length_zip, !length_fmap, length_seq.
  split; [|split; [lia|]].
  - destruct Hcap as [?| ->]; [done|cbn; lia].
  - apply Forall_app. split; [|done]. apply Forall_fmap.
    by apply Forall_forall.
Qed.

(** X17. The keys a run writes are [step_0], [step_1], ... in this order
    and without gaps, one per completed round, however the run ends. *)
Theorem run_write_keys self (question : string) (max_iterations : Z) st :
  ∃ evs (k : nat),
    log (run self question max_iterations st).2 = log st ++ evs
    ∧ (k ≤ Z.to_nat max_iterations)%nat
    ∧ (memory_writes evs).*1 = step_key <$> seq 0 k.
Proof.
  destruct (run_trace self question max_iterations st)
    as (outs & tail & Hlen & Hlog & _ & Hr).
  apply run_tail in Hr as [Htail _].
  destruct (tail_cases question tail Htail) as (Hw & _ & _).
  exists (rounds question (seq 0 (Z.to_nat max_iterations)) outs ++ tail),
         (length outs).
  split; [done|]. split; [done|].
  by rewrite memory_writes_app, Hw, app_nil_r, rounds_writes_keys.
Qed.

(** X18. A run leaves every key that is not one of its own [step_i]
    alone: what the memory held under such a key before the run, it holds
    after it, however the run ends. *)
Theorem run_memory_frame self (question : string) (max_iterations : Z) st
    (key : string) :
  (∀ i, (i < Z.to_nat max_iterations)%nat → key ≠ step_key i) →
  KnowledgeMemory.read (memory (run self question max_iterations st).2) key
  = KnowledgeMemory.read (memory st) key.
Proof.
  intros Hkey.
  destruct (run_trace self question max_iterations st)
    as (outs & tail & Hlen & _ & Hmem & _).
  rewrite Hmem. unfold KnowledgeMemory.read.
  rewrite store_writes_other; [done|].
  rewrite rounds_writes_keys by done.
  intros (i & -> & Hi)%list_elem_of_fmap. apply elem_of_seq in Hi.
  apply (Hkey i); [lia|done].
Qed.

(** X19. No round overwrites another: at the end of a run, also of one
    that a later tool call aborted, the [i]-th value written during the
    run is the one read under [step_i]. *)
Theorem run_outputs_readable self (question : string) (max_iterations : Z) st :
  ∃ evs,
    log (run self question max_iterations st).2 = log st ++ evs
    ∧ ∀ (i : nat) (key : string) (v : value),
        memory_writes evs !! i = Some (key, v) →
        key = step_key i
        ∧ KnowledgeMemory.read (memory (run self question max_iterations st).2) key
          = v.
Proof.
  destruct (run_trace self question max_iterations st)
    as (outs & tail & Hlen & Hlog & Hmem & Hr).
  apply run_tail in Hr as [Htail _].
  destruct (tail_cases question tail Htail) as (Hw & _ & _).
  exists (rounds question (seq 0 (Z.to_nat max_iterations)) outs ++ tail).
  split; [done|]. intros i key v Hi.
  rewrite memory_writes_app, Hw, app_nil_r in Hi.
  pose proof (rounds_writes_keys question _ outs Hlen) as Hkeys.
  split.
  - assert (Hk : (memory_writes
                    (rounds question (seq 0 (Z.to_nat max_iterations)) outs)).*1 !! i
                 = Some key) by (by rewrite list_lookup_fmap, Hi).
    rewrite Hkeys, list_lookup_fmap in Hk.
    destruct (seq 0 (length outs) !! i) as [j|] eqn:Hj; [|done].
    apply lookup_seq in Hj as [-> _]. by injection Hk as <-.
  - rewrite Hmem. apply (read_writes_NoDup _ _ i); [|done].
    rewrite Hkeys. apply NoDup_fmap_2; [|apply NoDup_seq].
    intros a b. apply step_key_inj.
Qed.

(** X20. A run that returns gives back the last value it wrote to
    memory, or [None] when it wrote nothing; every tool call it made
    returned and was followed by its write. *)
Theorem run_result_last_write self (question : string) (max_iterations : Z) st :
  match (run self question max_iterations st).1 with
  | Ok v =>
      ∃ evs,
        log (run self question max_iterations st).2 = log st ++ evs
        ∧ v = default VNone (last (memory_writes evs).*2)
        ∧ (invocations evs).*2 = Ok <$> (memory_writes evs).*2
  | Raise _ => True
  end.
Proof.
  destruct (run_trace self question max_iterations st)
    as (outs & tail & Hlen & Hlog & _ & Hr).
  destruct (run self question max_iterations st).1 as [v|e]; [|done].
  destruct Hr as [-> ->]. rewrite app_nil_r in Hlog.
  exists (rounds question (seq 0 (Z.to_nat max_iterations)) outs).
  split; [done|]. rewrite rounds_writes_values by done. split; [done|].
  rewrite invocations_rounds by (by rewrite length_seq).
  rewrite <- !list_fmap_compose. done.
Qed.

(** A round in which the call through the toolbox raises ends the loop
    with that exception; the round writes nothing. *)
Lemma iterate_call_raises self p (question : string) (i : nat) (rest : list nat)
    (result : value) (m : KnowledgeMemory.t) (w : W) (l : list event)
    (name : string) (w1 w2 : W) (e : exn) :
  select_tool self p m w = (Some name, w1) →
  KGToolbox.call (toolbox self) name [VStr question] [] w1 = (Raise e, w2) →
  iterate self p question (i :: rest) result (mkState m w l)
  = (Raise e,
     mkState m w2
       (l ++ match KGToolbox.tools (toolbox self) !! name with
             | Some _ => [Invoked name [VStr question] (Raise e)]
             | None => []
             end)).
Proof.
  intros Hsel Hcall.
  cbn [iterate]. unfold mbind at 1. unfold M_bind at 1. unfold call_select_tool.
  cbn [memory world log]. rewrite Hsel.
  unfold mbind at 1. unfold M_bind at 1.
  unfold execute_tool. cbn [memory world log]. by rewrite Hcall.
Qed.

(** X21. [run] does not catch what a tool call raises. If, after [k]
    rounds that ran to their end and with budget left, the selector names
    a tool and the call through the toolbox raises [e] (the exception of
    the registered operation, or the toolbox's [KeyError] for a name that
    is not registered), then the run raises [e] at once: no later round
    runs, the failed round writes nothing, and the memory keeps the writes
    of the [k] earlier rounds. *)
Theorem run_tool_failure_propagates self (question : string)
    (max_iterations : Z) st p (st1 : state W) (k : nat)
    (outs : list (string * value)) (m' : KnowledgeMemory.t) (w' : W)
    (name : string) (w1 w2 : W) (e : exn) :
  plan self question st = (Ok p, st1) →
  (k < Z.to_nat max_iterations)%nat →
  completes self p question (seq 0 k) (memory st) (world st1) outs m' w' →
  select_tool self p m' w' = (Some name, w1) →
  KGToolbox.call (toolbox self) name [VStr question] [] w1 = (Raise e, w2) →
  run self question max_iterations st
  = (Raise e,
     mkState m' w2
       (log st ++ rounds question (seq 0 k) outs
        ++ match KGToolbox.tools (toolbox self) !! name with
           | Some _ => [Invoked name [VStr question] (Raise e)]
           | None => []
           end))
  ∧ m' = KnowledgeMemory.writes (memory st) (zip (step_key <$> seq 0 k) outs.*2).
Proof.
  intros Hplan Hk Hc Hsel Hcall.
  destruct (plan_frame _ _ _ _ _ Hplan) as [Hmem Hlog].
  split; [|by apply (completes_memory _ _ _ _ _ _ _ _ _ Hc)].
  unfold run, mbind, M_bind. rewrite Hplan.
  destruct st1 as [m1 u1 l1]. cbn [memory world log] in *. subst m1 l1.
  replace (Z.to_nat max_iterations)
    with (k + Datatypes.S (Z.to_nat max_iterations - Datatypes.S k))%nat by lia.
  rewrite seq_app. cbn [seq].
  rewrite (iterate_completes _ _ _ _ _ VNone _ _ _ _ _ _ Hc).
  rewrite (iterate_call_raises _ _ _ _ _ _ _ _ _ name w1 w2 e Hsel Hcall).
  by rewrite <- app_assoc.
Qed.

(** X22. The agent of the example, built with a [DummyLLM] and the
    shipped [select_tool], plans the empty plan and returns [None] for
    every question, budget, toolbox and executor, without a tool call, a
    write, or any other effect. *)
Theorem run_with_DummyLLM (toolbox : KGToolbox.t W) (executor : KGExecutor.t)
    (question : string) (max_iterations : Z) st :
  plan (init (Some DummyLLM_generate) toolbox executor) question st
  = (Ok (mkPlan (VStr "[]") []), st)
  ∧ run (init (Some DummyLLM_generate) toolbox executor) question max_iterations st
    = (Ok VNone, st).
Proof.
  assert (Hplan : plan (init (Some DummyLLM_generate) toolbox executor) question st
                  = (Ok (mkPlan (VStr "[]") []), st)) by (by destruct st).
  split; [done|]. unfold run, mbind, M_bind. rewrite Hplan.
  destruct (seq 0 (Z.to_nat max_iterations)); [done|]. by destruct st.
Qed.

End RunBounds.

Lemma run_without_budget_witness :
  KGAgent.run looping_agent "q" (-1) (KGAgent.start None 7%nat)
  = (Ok VNone, KGAgent.start None 7%nat).
Proof. apply (run_without_budget looping_agent "q" (-1)). lia. Defined.


Lemma run_tool_failure_propagates_witness :
  KGAgent.run flaky_agent "q" 3 (KGAgent.start None 0%nat)
  = (Raise (OtherError "RuntimeError" "no more answers"),
     KGAgent.mkState
       (KnowledgeMemory.write KnowledgeMemory.fresh "step_0" (VList [VStr "q"]))
       1%nat
       [KGAgent.Invoked "flaky" [VStr "q"] (Ok (VList [VStr "q"]));
        KGAgent.Written "step_0" (VList [VStr "q"]);
        KGAgent.Invoked "flaky" [VStr "q"]
          (Raise (OtherError "RuntimeError" "no more answers"))]).
Proof.
  refine (proj1 (run_tool_failure_propagates flaky_agent "q" 3
                   (KGAgent.start None 0%nat)
                   (KGAgent.mkPlan (VStr "[]") []) (KGAgent.start None 0%nat)
                   1%nat [("flaky", VList [VStr "q"])] _ 1%nat
                   "flaky" 1%nat 1%nat
                   (OtherError "RuntimeError" "no more answers") _ _ _ _ _)).
  - reflexivity.
  - cbn. lia.
  - apply (completes_cons flaky_agent _ "q" 0%nat [] _ 0%nat
             "flaky" 0%nat flaky_tool _ 1%nat); [reflexivity..|].
    apply completes_nil.
  - reflexivity.
  - reflexivity.
Defined.

Lemma run_memory_frame_witness :
  KnowledgeMemory.read
    (KGAgent.memory
       (KGAgent.run looping_agent "q" 2
          (KGAgent.start (Some (KnowledgeMemory.write KnowledgeMemory.fresh
                                  "note" (VStr "kept"))) 0%nat)).2) "note"
  = VStr "kept".
Proof.
  rewrite (run_memory_frame looping_agent "q" 2); [reflexivity|].
  intros i Hi. destruct i as [|[|i]]; [discriminate|discriminate|].
  cbn in Hi. lia.
Defined.

(** ** The example's tool inside the loop *)

Section ExampleTool.
Import KGAgent.

Lemma query_neighbors_1_missing (ex : KGExecutor.t) (n : string) :
  nx.has_node (KGExecutor.graph ex) n = false →
  KGExecutor.query_neighbors ex n 1
  = Raise (NetworkXError ("The node " +:+ n +:+ " is not in the digraph.")).
Proof.
  intros Hmiss. unfold nx.has_node in Hmiss. apply bool_decide_eq_false in Hmiss.
  assert (Hn : nx.succ (KGExecutor.graph ex) !! n = None)
    by (destruct (nx.succ (KGExecutor.graph ex) !! n); [exfalso; eauto | done]).
  unfold KGExecutor.query_neighbors, KGExecutor.neighbor_set.
  change (Z.to_nat 1) with 1%nat. cbn [KGExecutor.layers].
  rewrite elements_singleton. by rewrite update_successors_missing.
Qed.

(** X23. The loop hands a tool the question itself. With the example's
    [neighbors] tool, which takes its argument for a node, a question that
    is not the name of a node makes the first round raise networkx's
    [NetworkXError]; the run ends there, with the failed call on record
    and nothing written. *)
Theorem run_question_as_node (self : t KGExecutor.t)
    (fn : KGToolbox.callable KGExecutor.t) (name question : string)
    (max_iterations : Z) (st st1 : state KGExecutor.t) (p : Plan)
    (w1 : KGExecutor.t) :
  0 < max_iterations →
  KGToolbox.tools (toolbox self) !! name = Some fn →
  acts_as_neighbors_lambda fn →
  plan self question st = (Ok p, st1) →
  select_tool self p (memory st1) (world st1) = (Some name, w1) →
  nx.has_node (KGExecutor.graph w1) question = false →
  run self question max_iterations st
  = (Raise (NetworkXError ("The node " +:+ question +:+ " is not in the digraph.")),
     mkState (memory st) w1
       (log st ++ [Invoked name [VStr question]
                     (Raise (NetworkXError
                               ("The node " +:+ question +:+ " is not in the digraph.")))])).
Proof.
  intros Hmax Hfn Hact Hplan Hsel Hmiss.
  destruct (plan_frame _ _ _ _ _ Hplan) as [Hmem Hlog].
  unfold run, mbind at 1. unfold M_bind at 1. rewrite Hplan.
  destruct (Z.to_nat max_iterations) as [|k] eqn:Hk; [lia|].
  cbn [seq iterate]. unfold mbind at 1. unfold M_bind at 1.
  unfold call_select_tool. rewrite Hsel.
  unfold mbind at 1. unfold M_bind at 1.
  unfold execute_tool, KGToolbox.call. cbn [memory world log].
  rewrite Hfn, (Hact question w1). unfold neighbor_tool.
  rewrite (query_neighbors_1_missing w1 question Hmiss). cbn.
  by rewrite Hmem, Hlog.
Qed.

End ExampleTool.

Lemma run_question_as_node_witness :
  KGAgent.run eager_agent "Who is two hops away from Alice?" 10
    (KGAgent.start None chain_executor)
  = (Raise (NetworkXError
              "The node Who is two hops away from Alice? is not in the digraph."),
     KGAgent.mkState KnowledgeMemory.fresh chain_executor
       [KGAgent.Invoked "neighbors" [VStr "Who is two hops away from Alice?"]
          (Raise (NetworkXError
                    "The node Who is two hops away from Alice? is not in the digraph."))]).
Proof.
  apply (run_question_as_node eager_agent neighbors_double "neighbors"
           "Who is two hops away from Alice?" 10
           (KGAgent.start None chain_executor) (KGAgent.start None chain_executor)
           (KGAgent.mkPlan (VStr "[]") []) chain_executor).
  - lia.
  - reflexivity.
  - intros node executor. reflexivity.
  - reflexivity.
  - reflexivity.
  - reflexivity.
Defined.
